(** * react-twitter-widgets: the widget mount controller and the event router

    A shallow embedding of [src/index.js].  The two hooks of the file,
    [useTwitterWidget] and [useTwitterEvents], are modelled as transition
    functions on explicit states: React state, the DOM under the mount point,
    the JavaScript heap of caller-owned objects, the module-level [HANDLERS]
    table and a trace of the calls made to the outside (callbacks, console,
    the third-party factory, the event bus). *)

From stdpp Require Import gmap strings list fin_maps.

Open Scope string_scope.
Open Scope nat_scope.

(** ** JavaScript values *)

Abbreviation loc := nat.

(** Values that flow through the hooks.  [VObj l] is a reference to the
    object stored at [l] in the heap; [VError m] is an [Error] object with
    message [m]. *)
Inductive JSVal :=
  | VUndefined
  | VNull
  | VBool (b : bool)
  | VNum (n : Z)
  | VStr (s : string)
  | VObj (l : loc)
  | VError (message : string).

#[global] Instance JSVal_eq_dec : EqDecision JSVal.
Proof. solve_decision. Defined.

(** [!v] is [negb (truthy v)]. *)
Definition truthy (v : JSVal) : bool :=
  match v with
  | VUndefined | VNull => false
  | VBool b => b
  | VNum n => negb (n =? 0)%Z
  | VStr s => negb (String.eqb s "")
  | VObj _ | VError _ => true
  end.

(** A function value is identified by a number; a missing callback prop is
    [None] ([undefined]). *)
Definition Callback := nat.

(** Calls that leave the module. *)
Inductive Effect :=
  | Invoke (f : Callback) (args : list JSVal)
  | ConsoleError (e : JSVal)
  | SetError (e : JSVal)
  | TwWidgetFactory
  | FactoryCall (name : string) (primary : JSVal) (el : nat) (options : JSVal).

#[global] Instance Effect_eq_dec : EqDecision Effect.
Proof. solve_decision. Defined.

(** [!id] for an id prop that is a string. *)
Definition id_truthy (id : string) : bool := negb (String.eqb id "").

(** ** The event router: [HANDLERS], [BASE_HANDLERS], [useTwitterEvents] *)

Module Events.

Inductive Kind := KTweet | KRetweet | KLike.

#[global] Instance Kind_eq_dec : EqDecision Kind.
Proof. solve_decision. Defined.

Definition kind_name (k : Kind) : string :=
  match k with
  | KTweet => "tweet"
  | KRetweet => "retweet"
  | KLike => "like"
  end.

(** [const HANDLERS = { tweet: {}, retweet: {}, like: {} }], each table
    taken as the finite map of its own properties.  That is all there is to a
    table for ids that name no property it inherits; what the prototype
    chain of the object literals adds is in [ObjectTable] below, and the two
    are shown to agree on such ids. *)
Record Handlers := mkHandlers {
  tweet : gmap string Callback;
  retweet : gmap string Callback;
  like : gmap string Callback
}.

Definition HANDLERS0 : Handlers :=
  {| tweet := ∅; retweet := ∅; like := ∅ |}.

Definition table (k : Kind) (H : Handlers) : gmap string Callback :=
  match k with
  | KTweet => tweet H
  | KRetweet => retweet H
  | KLike => like H
  end.

(** The payload of a Twitter interaction event, [intent.data]. *)
Record IntentData := mkData {
  tweet_id : string;
  source_tweet_id : string
}.

Record Intent := mkIntent { data : IntentData }.

(** [BASE_HANDLERS.tweet] *)
Definition BASE_HANDLERS_tweet (H : Handlers) (intent : Intent) : list Effect :=
  match tweet H !! tweet_id (data intent) with
  | None => []
  | Some handler => [Invoke handler []]
  end.

(** [BASE_HANDLERS.retweet] *)
Definition BASE_HANDLERS_retweet (H : Handlers) (intent : Intent) : list Effect :=
  match retweet H !! source_tweet_id (data intent) with
  | None => []
  | Some handler => [Invoke handler []]
  end.

(** [BASE_HANDLERS.like], on the own properties of the table (see
    [ObjectTable.BASE_HANDLERS_like] for the lookup along the prototype
    chain). *)
Definition BASE_HANDLERS_like (H : Handlers) (intent : Intent) : list Effect :=
  match like H !! tweet_id (data intent) with
  | None => []
  | Some handler => [Invoke handler []]
  end.

Definition BASE_HANDLERS (k : Kind) : Handlers -> Intent -> list Effect :=
  match k with
  | KTweet => BASE_HANDLERS_tweet
  | KRetweet => BASE_HANDLERS_retweet
  | KLike => BASE_HANDLERS_like
  end.

(** The key of the payload a dispatcher routes by. *)
Definition routed_id (k : Kind) (intent : Intent) : string :=
  match k with
  | KTweet | KLike => tweet_id (data intent)
  | KRetweet => source_tweet_id (data intent)
  end.

(** The bodies of the three registration effects of [useTwitterEvents]. *)
Definition register_tweet (id : string) (onTweet : option Callback)
    (H : Handlers) : Handlers :=
  match onTweet with
  | Some f =>
      if id_truthy id
      then {| tweet := <[id := f]> (tweet H); retweet := retweet H; like := like H |}
      else H
  | None => H
  end.

Definition register_retweet (id : string) (onRetweet : option Callback)
    (H : Handlers) : Handlers :=
  match onRetweet with
  | Some f =>
      if id_truthy id
      then {| tweet := tweet H; retweet := <[id := f]> (retweet H); like := like H |}
      else H
  | None => H
  end.

Definition register_like (id : string) (onLike : option Callback)
    (H : Handlers) : Handlers :=
  match onLike with
  | Some f =>
      if id_truthy id
      then {| tweet := tweet H; retweet := retweet H; like := <[id := f]> (like H) |}
      else H
  | None => H
  end.

Definition register (k : Kind) : string -> option Callback -> Handlers -> Handlers :=
  match k with
  | KTweet => register_tweet
  | KRetweet => register_retweet
  | KLike => register_like
  end.

(** The second argument of [useTwitterEvents]. *)
Record EventProps := mkEventProps {
  onTweet : option Callback;
  onRetweet : option Callback;
  onLike : option Callback
}.

(** The process-wide state the hook works on: the [HANDLERS] table, the
    calls of [twEventsFactory()], the [loadEvents()] activations suspended
    at their [await], and the calls [events.bind(name, dispatcher)] in the
    order they were made. *)
Record Process := mkProcess {
  handlers : Handlers;
  bus_requests : nat;
  loading : nat;
  bind_calls : list (string * Kind)
}.

Definition process0 : Process :=
  {| handlers := HANDLERS0; bus_requests := 0; loading := 0; bind_calls := [] |}.

(** The first effect (deps [[]]): [loadEvents()] runs up to its [await]. *)
Definition loadEvents_start (P : Process) : Process :=
  {| handlers := handlers P;
     bus_requests := S (bus_requests P);
     loading := S (loading P);
     bind_calls := bind_calls P |}.

(** [loadEvents()] after [await twEventsFactory()] resolved: the three
    [events.bind] calls.  When the promise rejects the activation ends
    without binding. *)
Definition loadEvents_resume (ok : bool) (P : Process) : Process :=
  match loading P with
  | O => P
  | S n =>
      {| handlers := handlers P;
         bus_requests := bus_requests P;
         loading := n;
         bind_calls :=
           if ok
           then bind_calls P ++
                  [(kind_name KTweet, KTweet);
                   (kind_name KRetweet, KRetweet);
                   (kind_name KLike, KLike)]
           else bind_calls P |}
  end.

Definition with_handlers (f : Handlers -> Handlers) (P : Process) : Process :=
  {| handlers := f (handlers P);
     bus_requests := bus_requests P;
     loading := loading P;
     bind_calls := bind_calls P |}.

(** All four effects run when an instance mounts, in source order. *)
Definition useTwitterEvents_mount (id : string) (p : EventProps) (P : Process) : Process :=
  with_handlers (register_like id (onLike p))
    (with_handlers (register_retweet id (onRetweet p))
      (with_handlers (register_tweet id (onTweet p))
        (loadEvents_start P))).

(** On a later render an effect runs again only when one of its deps
    changed; the first effect has no deps and never runs again. *)
Definition rerun_if (changed : bool) (f : Handlers -> Handlers) (P : Process) : Process :=
  if changed then with_handlers f P else P.

Definition useTwitterEvents_update (id0 : string) (p0 : EventProps)
    (id : string) (p : EventProps) (P : Process) : Process :=
  rerun_if (negb (bool_decide (id0 = id /\ onLike p0 = onLike p)))
           (register_like id (onLike p))
    (rerun_if (negb (bool_decide (id0 = id /\ onRetweet p0 = onRetweet p)))
              (register_retweet id (onRetweet p))
      (rerun_if (negb (bool_decide (id0 = id /\ onTweet p0 = onTweet p)))
                (register_tweet id (onTweet p))
         P)).

(** What the page does, as seen by the router. *)
Inductive Event :=
  | Mount (id : string) (p : EventProps)
  | Update (id0 : string) (p0 : EventProps) (id : string) (p : EventProps)
  | BusSettled (ok : bool).

Definition step (P : Process) (e : Event) : Process :=
  match e with
  | Mount id p => useTwitterEvents_mount id p P
  | Update id0 p0 id p => useTwitterEvents_update id0 p0 id p P
  | BusSettled ok => loadEvents_resume ok P
  end.

Definition run (P : Process) (es : list Event) : Process := foldl step P es.

(** How often [events.bind] was called with the dispatcher of kind [k]. *)
Definition bound_count (k : Kind) (P : Process) : nat :=
  length (filter (λ b, b.2 = k) (bind_calls P)).



(** The callback prop that the registration effect of kind [k] reads. *)
Definition callback_of (k : Kind) (p : EventProps) : option Callback :=
  match k with
  | KTweet => onTweet p
  | KRetweet => onRetweet p
  | KLike => onLike p
  end.

Definition is_mount (e : Event) : bool :=
  match e with Mount _ _ => true | _ => false end.

(** How many instances a sequence of events mounts. *)
Definition mounts (es : list Event) : nat :=
  length (filter (λ e, is_mount e = true) es).

End Events.

(** ** The mount controller: [useTwitterWidget] and the six components *)

Module Widget.

(** The model is of the hook in the browser, where [canUseDOM] holds; on the
    server the hook returns [{ ref, error }] before it registers its effect
    and nothing below happens.  When the effect runs is decided by React from
    the deps ([factoryFunctionName] and the shallowly compared [primaryArg]
    and [options]); here every such run is an event, and the statements hold
    for whatever sequence of runs the comparison produces. *)

(** *** The DOM under the mount point *)

Record Element := mkElement {
  el_id : nat;
  el_tag : string;
  el_attrs : gmap string string
}.

Definition hasAttribute (a : string) (c : Element) : bool :=
  bool_decide (is_Some (el_attrs c !! a)).

Definition setAttribute (a v : string) (c : Element) : Element :=
  {| el_id := el_id c; el_tag := el_tag c; el_attrs := <[a := v]> (el_attrs c) |}.

(** [document.createElement(tag)], the node identity given by the caller. *)
Definition createElement (n : nat) (tag : string) : Element :=
  {| el_id := n; el_tag := tag; el_attrs := ∅ |}.

Definition appendChild (children : list Element) (c : Element) : list Element :=
  children ++ [c].

(** [el.remove()]: the node leaves its parent, if it is still there. *)
Definition remove (n : nat) (children : list Element) : list Element :=
  filter (λ c, el_id c ≠ n) children.

(** Modelled from the spec: [removeChildrenWithAttribute] of [./utils] is
    not part of the sources at hand.  The spec has it "clear any previously
    created child container(s) tagged with a sentinel marker attribute from
    the mount point": every child that carries the attribute goes, the
    others stay in place. *)
Definition removeChildrenWithAttribute (children : list Element) (a : string)
    : list Element :=
  filter (λ c, hasAttribute a c = false) children.

Definition childDivIdentifyingAttribute : string := "twdiv".

Definition tagged (children : list Element) : list Element :=
  filter (λ c, hasAttribute childDivIdentifyingAttribute c = true) children.

(** *** The heap of plain objects *)

Abbreviation Obj := (gmap string JSVal).
Abbreviation Heap := (gmap loc Obj).

(** Modelled from the spec: [cloneShallow] of [./utils] is not part of the
    sources at hand.  The spec has it a "one level" clone of the primary
    argument and of the options: an object is copied field by field into a
    new object, any other value is returned as it is. *)
Definition cloneShallow (v : JSVal) (h : Heap) : JSVal * Heap :=
  match v with
  | VObj l =>
      match h !! l with
      | Some o => let l' := fresh (dom h) in (VObj l', <[l' := o]> h)
      | None => (v, h)
      end
  | _ => (v, h)
  end.

(** A value that is not a reference to an object of [h]. *)
Definition outside (h : Heap) (v : JSVal) : Prop :=
  ∀ l, v = VObj l → h !! l = None.

(** What the third-party factory does to the objects it is handed: it
    writes and deletes properties of its first and of its third argument.
    The source notes that these objects hold no nested arrays or objects, so
    one level is all there is to write to. *)
Inductive ArgPos := Primary | Options.

Inductive ArgMut :=
  | SetProp (a : ArgPos) (key : string) (v : JSVal)
  | DeleteProp (a : ArgPos) (key : string).

Definition mutate_at (v : JSVal) (f : Obj -> Obj) (h : Heap) : Heap :=
  match v with
  | VObj l =>
      match h !! l with
      | Some o => <[l := f o]> h
      | None => h
      end
  | _ => h
  end.

Definition apply_mut (primary options : JSVal) (m : ArgMut) (h : Heap) : Heap :=
  let target a := match a with Primary => primary | Options => options end in
  match m with
  | SetProp a key v => mutate_at (target a) (insert key v) h
  | DeleteProp a key => mutate_at (target a) (delete key) h
  end.

Definition apply_muts (primary options : JSVal) (ms : list ArgMut) (h : Heap) : Heap :=
  foldl (λ h m, apply_mut primary options m h) h ms.

(** *** Sessions and the state of one component instance *)

(** The arguments of one call of [useTwitterWidget]. *)
Record Props := mkProps {
  factoryFunctionName : string;
  primaryArg : JSVal;
  options : JSVal;
  onLoad : option Callback
}.

(** Where an activation of [loadWidget] is suspended. *)
Inductive PC :=
  | AwaitFactory   (* at [await twWidgetFactory()] *)
  | AwaitWidget    (* at [await wf[factoryFunctionName](...)] *)
  | Finished.

#[global] Instance PC_eq_dec : EqDecision PC.
Proof. solve_decision. Defined.

(** One run of the effect that reached [loadWidget()]: the variables its
    closures share. *)
Record Session := mkSession {
  isCanceled : bool;
  props : Props;
  childEl : nat;
  pc : PC
}.

Definition cancel (s : Session) : Session :=
  {| isCanceled := true; props := props s; childEl := childEl s; pc := pc s |}.

Definition at_pc (p : PC) (s : Session) : Session :=
  {| isCanceled := isCanceled s; props := props s; childEl := childEl s; pc := p |}.

Record Instance := mkInstance {
  error : JSVal;                       (* [useState(null)] *)
  ref_current : option (list Element); (* the children of [ref.current] that
                                          React does not render itself, that
                                          is, all but the node of the error
                                          expression; [None] is [null] *)
  heap : Heap;
  sessions : list Session;             (* a session's id is its index *)
  cleanup : option nat;                (* the session the pending cleanup cancels *)
  next_el : nat;                       (* identity of the next created node *)
  trace : list Effect
}.

Definition initial (r : option (list Element)) (h : Heap) (n : nat) : Instance :=
  {| error := VNull; ref_current := r; heap := h; sessions := [];
     cleanup := None; next_el := n; trace := [] |}.

Definition setError (e : JSVal) (st : Instance) : Instance :=
  {| error := e; ref_current := ref_current st; heap := heap st;
     sessions := sessions st; cleanup := cleanup st; next_el := next_el st;
     trace := trace st ++ [SetError e] |}.

Definition emit (x : Effect) (st : Instance) : Instance :=
  {| error := error st; ref_current := ref_current st; heap := heap st;
     sessions := sessions st; cleanup := cleanup st; next_el := next_el st;
     trace := trace st ++ [x] |}.

Definition set_ref (r : option (list Element)) (st : Instance) : Instance :=
  {| error := error st; ref_current := r; heap := heap st;
     sessions := sessions st; cleanup := cleanup st; next_el := next_el st;
     trace := trace st |}.

Definition set_heap (h : Heap) (st : Instance) : Instance :=
  {| error := error st; ref_current := ref_current st; heap := h;
     sessions := sessions st; cleanup := cleanup st; next_el := next_el st;
     trace := trace st |}.

Definition set_sessions (ss : list Session) (st : Instance) : Instance :=
  {| error := error st; ref_current := ref_current st; heap := heap st;
     sessions := ss; cleanup := cleanup st; next_el := next_el st;
     trace := trace st |}.

Definition set_cleanup (c : option nat) (st : Instance) : Instance :=
  {| error := error st; ref_current := ref_current st; heap := heap st;
     sessions := sessions st; cleanup := c; next_el := next_el st;
     trace := trace st |}.

Definition set_next_el (n : nat) (st : Instance) : Instance :=
  {| error := error st; ref_current := ref_current st; heap := heap st;
     sessions := sessions st; cleanup := cleanup st; next_el := n;
     trace := trace st |}.

Definition update_session (sid : nat) (f : Session -> Session) (st : Instance) : Instance :=
  set_sessions (alter f sid (sessions st)) st.

(** The function the effect returns: [() => { isCanceled = true; }]. *)
Definition useTwitterWidget_cleanup (st : Instance) : Instance :=
  match cleanup st with
  | Some sid => set_cleanup None (update_session sid cancel st)
  | None => st
  end.

(** [catch (e) { console.error(e); setError(e); return; }] *)
Definition catch (sid : nat) (e : JSVal) (st : Instance) : Instance :=
  update_session sid (at_pc Finished) (setError e (emit (ConsoleError e) st)).

Definition creation_failed : JSVal :=
  VError ("Twitter could not create widget. If it is a Timeline or " ++
          "Tweet, ensure the screenName/tweetId exists.").

(** [loadWidget()] from its first line to [await twWidgetFactory()]. *)
Definition loadWidget_start (p : Props) (st : Instance) : Instance :=
  match ref_current st with
  | None => set_cleanup None st
  | Some children =>
      let childEl :=
        setAttribute childDivIdentifyingAttribute "yes"
          (createElement (next_el st) "div") in
      let sid := length (sessions st) in
      emit TwWidgetFactory
        (set_cleanup (Some sid)
          (set_sessions
             (sessions st ++
                [{| isCanceled := false; props := p;
                    childEl := el_id childEl; pc := AwaitFactory |}])
             (set_next_el (S (next_el st))
                (set_ref (Some (appendChild children childEl)) st))))
  end.

(** The body of the effect. *)
Definition useTwitterWidget_effect (p : Props) (st : Instance) : Instance :=
  let st := setError VNull st in
  match ref_current st with
  | Some children =>
      loadWidget_start p
        (set_ref
           (Some (removeChildrenWithAttribute children childDivIdentifyingAttribute))
           st)
  | None => set_cleanup None st
  end.

(** How a promise settles. *)
Inductive Settled (A : Type) :=
  | Fulfilled (a : A)
  | Rejected (e : JSVal).
Arguments Fulfilled {A} a.
Arguments Rejected {A} e.

(** What [wf[factoryFunctionName]] does when it is called: it mutates the
    objects it was handed and either returns its promise or throws. *)
Record ThirdParty := mkThirdParty {
  mutations : list ArgMut;
  throws : option JSVal
}.

(** [loadWidget()] from the first [await] to the second one. *)
Definition loadWidget_after_twWidgetFactory (sid : nat) (o : Settled ThirdParty) (st : Instance)
    : Instance :=
  match sessions st !! sid with
  | Some s =>
      if decide (pc s = AwaitFactory) then
        match o with
        | Rejected e => catch sid e st
        | Fulfilled wf =>
            let '(primary, h1) := cloneShallow (primaryArg (props s)) (heap st) in
            let '(opts, h2) := cloneShallow (options (props s)) h1 in
            let st :=
              emit (FactoryCall (factoryFunctionName (props s)) primary (childEl s) opts)
                (set_heap (apply_muts primary opts (mutations wf) h2) st) in
            match throws wf with
            | Some e => catch sid e st
            | None => update_session sid (at_pc AwaitWidget) st
            end
        end
      else st
  | None => st
  end.

(** [loadWidget()] from the second [await] to its end. *)
Definition loadWidget_after_factoryCall (sid : nat) (o : Settled JSVal) (st : Instance)
    : Instance :=
  match sessions st !! sid with
  | Some s =>
      if decide (pc s = AwaitWidget) then
        match o with
        | Rejected e => catch sid e st
        | Fulfilled resultMaybe =>
            if negb (truthy resultMaybe) && negb (isCanceled s)
            then catch sid creation_failed st
            else
              let st := update_session sid (at_pc Finished) st in
              match ref_current st with
              | None => st
              | Some children =>
                  if isCanceled s
                  then set_ref (Some (remove (childEl s) children)) st
                  else
                    match onLoad (props s) with
                    | Some f => emit (Invoke f []) st
                    | None => st
                    end
              end
        end
      else st
  | None => st
  end.

(** What happens to one instance in the browser.  [Commit p] is a render
    whose deps differ from those of the previous one (the first render
    included): React runs the pending cleanup, then the effect.  [Unmount]
    runs the pending cleanup and clears the ref.  The other two events are
    the continuations of a suspended [loadWidget()]. *)
Inductive Event :=
  | Commit (p : Props)
  | Unmount
  | FactoryLoaded (sid : nat) (o : Settled ThirdParty)
  | WidgetSettled (sid : nat) (o : Settled JSVal).

Definition step (st : Instance) (e : Event) : Instance :=
  match e with
  | Commit p => useTwitterWidget_effect p (useTwitterWidget_cleanup st)
  | Unmount => set_ref None (useTwitterWidget_cleanup st)
  | FactoryLoaded sid o => loadWidget_after_twWidgetFactory sid o st
  | WidgetSettled sid o => loadWidget_after_factoryCall sid o st
  end.

Definition run (st : Instance) (es : list Event) : Instance := foldl step st es.

Definition tagged_count (st : Instance) : nat :=
  match ref_current st with
  | Some children => length (tagged children)
  | None => 0
  end.

(** *** The components *)

Inductive Component := Follow | Hashtag | Mention | Share | Timeline | Tweet.

Definition factory_of (c : Component) : string :=
  match c with
  | Follow => "createFollowButton"
  | Hashtag => "createHashtagButton"
  | Mention => "createMentionButton"
  | Share => "createShareButton"
  | Timeline => "createTimeline"
  | Tweet => "createTweet"
  end.

Definition component_props (c : Component) (primary opts : JSVal)
    (onLoad : option Callback) : Props :=
  {| factoryFunctionName := factory_of c; primaryArg := primary;
     options := opts; onLoad := onLoad |}.

(** The child expression of every component,
    [error && renderError && renderError(error)]. *)
Inductive Child (M : Type) :=
  | ChildValue (v : JSVal)
  | ChildMarkup (m : M).
Arguments ChildValue {M} v.
Arguments ChildMarkup {M} m.

Definition error_child {M : Type} (error : JSVal)
    (renderError : option (JSVal -> M)) : Child M :=
  if truthy error then
    match renderError with
    | Some r => ChildMarkup (r error)
    | None => ChildValue VUndefined
    end
  else ChildValue error.

(** Whether a step of the trace reports an error or calls [f]. *)
Definition sets_error (x : Effect) : bool :=
  match x with SetError _ => true | _ => false end.

Definition calls (f : Callback) (x : Effect) : bool :=
  match x with Invoke g _ => bool_decide (g = f) | _ => false end.

Definition is_factory_call (x : Effect) : bool :=
  match x with FactoryCall _ _ _ _ | TwWidgetFactory => true | _ => false end.

Definition is_invoke (x : Effect) : bool :=
  match x with Invoke _ _ => true | _ => false end.

(** The callback calls of a trace, in order. *)
Definition invocations (t : list Effect) : list Effect :=
  filter (λ x, is_invoke x = true) t.

(** Facts that hold of every state an instance reaches when its node counter
    starts at [n0].  Node identities: the container of session [i] is node
    [n0 + i]. *)
Definition ids_ok (n0 : nat) (st : Instance) : Prop :=
  next_el st = n0 + length (sessions st) ∧
  ∀ (i : nat) (s : Session), sessions st !! i = Some s → childEl s = n0 + i.

(** Cancellation: a session that is not canceled is the one the pending
    cleanup will cancel, and the pending cleanup refers to such a session. *)
Definition live_ok (st : Instance) : Prop :=
  (∀ (i : nat) (s : Session),
      sessions st !! i = Some s → isCanceled s = false → cleanup st = Some i) ∧
  (∀ i : nat, cleanup st = Some i →
      ∃ s, sessions st !! i = Some s ∧ isCanceled s = false).

(** The mount point: each child is either a node that was there from the
    start (its identity is below [n0]) or the tagged container of the
    session that is not canceled. *)
Definition dom_ok (n0 : nat) (st : Instance) : Prop :=
  ∀ (children : list Element) (c : Element),
    ref_current st = Some children → c ∈ children →
    el_id c < n0 ∨
    (hasAttribute childDivIdentifyingAttribute c = true ∧
     ∃ i : nat, cleanup st = Some i ∧ el_id c = n0 + i).

Definition session_ok (n0 : nat) (st : Instance) : Prop :=
  ids_ok n0 st ∧ live_ok st ∧ dom_ok n0 st.

(** What the continuations of [loadWidget] leave alone in a session. *)
Definition session_key (s : Session) : bool * nat := (isCanceled s, childEl s).


End Widget.

(** ** The handler tables as JavaScript objects *)

Module ObjectTable.

(** What a property read on a table can find: a callback that was registered,
    or a value of the engine (a built-in function, a prototype object, the
    name or the length of a function), of which the dispatchers only use the
    truthiness before they call it. *)
Inductive Found :=
  | FCallback (f : Callback)
  | FEngine (what : string) (is_truthy : bool).

Definition found_truthy (v : Found) : bool :=
  match v with
  | FCallback _ => true
  | FEngine _ b => b
  end.

(** What a function object holds under a key, on itself or on
    [Function.prototype]: nothing, a data property that can or cannot be
    written, or an accessor that throws. *)
Inductive FnSlot :=
  | FnAbsent
  | FnWritable (v : Found)
  | FnReadOnly (v : Found)
  | FnThrower.

(** The prototype of a table: [Object.prototype], as the literal [{}] gives
    it, or a callback, after an assignment under ["__proto__"]. *)
Inductive Proto :=
  | ObjectPrototype
  | CallbackProto (f : Callback).

Record Table := mkTable {
  own : gmap string Callback;
  proto : Proto
}.

(** The data properties of [Object.prototype]; all of them are functions and
    writable. *)
Definition object_prototype_keys : list string :=
  ["constructor"; "__defineGetter__"; "__defineSetter__"; "hasOwnProperty";
   "__lookupGetter__"; "__lookupSetter__"; "isPrototypeOf";
   "propertyIsEnumerable"; "toString"; "valueOf"; "toLocaleString"].

(** What the prototype chain of a table holds under a key. *)
Inductive Slot :=
  | Absent
  | Writable (v : Found)
  | ReadOnly (v : Found)
  | Thrower
  | ProtoAccessor.   (* the accessor [__proto__] of [Object.prototype] *)

Definition object_prototype_slot (key : string) : Slot :=
  if bool_decide (key ∈ object_prototype_keys)
  then Writable (FEngine ("Object.prototype." ++ key) true)
  else Absent.

(** An anonymous arrow function without parameters, as passed inline for
    [onLike]: its [length] is [0] and its [name] is empty, both read-only;
    the rest comes from [Function.prototype]. *)
Definition arrow_function (f : Callback) (key : string) : FnSlot :=
  if bool_decide (key = "length") then FnReadOnly (FEngine "0" false)
  else if bool_decide (key = "name") then FnReadOnly (FEngine "the empty string" false)
  else if bool_decide (key ∈ ["apply"; "bind"; "call"; "toString"])
    then FnWritable (FEngine ("Function.prototype." ++ key) true)
  else if bool_decide (key = "constructor") then FnWritable (FEngine "Function" true)
  else if bool_decide (key ∈ ["caller"; "arguments"]) then FnThrower
  else FnAbsent.

(** The result of a property read. *)
Inductive Read :=
  | Value (v : Found)
  | Undefined
  | ReadThrows.

(** What a dispatcher does: it returns without a call, it calls what it
    found (with the arguments given), or the read itself throws. *)
Inductive Dispatch :=
  | Returned
  | Called (v : Found) (args : list JSVal)
  | ReadThrew.

(** The dispatch that a list of calls of callbacks stands for. *)
Definition effects (d : Dispatch) : option (list Effect) :=
  match d with
  | Returned => Some []
  | Called (FCallback f) args => Some [Invoke f args]
  | Called (FEngine _ _) _ => None
  | ReadThrew => None
  end.

Section Engine.

(** The properties of the function objects that callers pass as callbacks;
    the source does not determine them. *)
Variable fn : Callback → string → FnSlot.

(** The first property with the key along the chain above the table.  No
    function object has a property ["__proto__"] of its own, so this key
    always reaches the accessor of [Object.prototype]. *)
Definition inherited_slot (T : Table) (key : string) : Slot :=
  if bool_decide (key = "__proto__") then ProtoAccessor
  else
    match proto T with
    | ObjectPrototype => object_prototype_slot key
    | CallbackProto f =>
        match fn f key with
        | FnAbsent => object_prototype_slot key
        | FnWritable v => Writable v
        | FnReadOnly v => ReadOnly v
        | FnThrower => Thrower
        end
    end.

Definition proto_value (T : Table) : Found :=
  match proto T with
  | ObjectPrototype => FEngine "Object.prototype" true
  | CallbackProto f => FCallback f
  end.

(** [T[key]] *)
Definition get (T : Table) (key : string) : Read :=
  match own T !! key with
  | Some f => Value (FCallback f)
  | None =>
      match inherited_slot T key with
      | Absent => Undefined
      | Writable v | ReadOnly v => Value v
      | Thrower => ReadThrows
      | ProtoAccessor => Value (proto_value T)
      end
  end.

(** [T[key] = f] for a callback [f], in the strict code of a module: [None]
    is the [TypeError] of an assignment that a read-only inherited property
    or a throwing setter rejects. *)
Definition set (T : Table) (key : string) (f : Callback) : option Table :=
  match own T !! key with
  | Some _ => Some {| own := <[key := f]> (own T); proto := proto T |}
  | None =>
      match inherited_slot T key with
      | Absent | Writable _ => Some {| own := <[key := f]> (own T); proto := proto T |}
      | ReadOnly _ | Thrower => None
      | ProtoAccessor => Some {| own := own T; proto := CallbackProto f |}
      end
  end.

(** [const handler = T[key]; if (!handler) { return; } handler();] *)
Definition dispatch (T : Table) (key : string) : Dispatch :=
  match get T key with
  | Value v => if found_truthy v then Called v [] else Returned
  | Undefined => Returned
  | ReadThrows => ReadThrew
  end.

(** [const HANDLERS = { tweet: {}, retweet: {}, like: {} }] *)
Record Handlers := mkHandlers {
  tweet : Table;
  retweet : Table;
  like : Table
}.

Definition empty_table : Table := {| own := ∅; proto := ObjectPrototype |}.

Definition HANDLERS0 : Handlers :=
  {| tweet := empty_table; retweet := empty_table; like := empty_table |}.

Definition table (k : Events.Kind) (H : Handlers) : Table :=
  match k with
  | Events.KTweet => tweet H
  | Events.KRetweet => retweet H
  | Events.KLike => like H
  end.

(** [BASE_HANDLERS.tweet], [BASE_HANDLERS.retweet], [BASE_HANDLERS.like] *)
Definition BASE_HANDLERS_tweet (H : Handlers) (intent : Events.Intent) : Dispatch :=
  dispatch (tweet H) (Events.tweet_id (Events.data intent)).

Definition BASE_HANDLERS_retweet (H : Handlers) (intent : Events.Intent) : Dispatch :=
  dispatch (retweet H) (Events.source_tweet_id (Events.data intent)).

Definition BASE_HANDLERS_like (H : Handlers) (intent : Events.Intent) : Dispatch :=
  dispatch (like H) (Events.tweet_id (Events.data intent)).

Definition BASE_HANDLERS (k : Events.Kind) : Handlers → Events.Intent → Dispatch :=
  match k with
  | Events.KTweet => BASE_HANDLERS_tweet
  | Events.KRetweet => BASE_HANDLERS_retweet
  | Events.KLike => BASE_HANDLERS_like
  end.

(** The bodies of the three registration effects of [useTwitterEvents];
    [None] when the assignment throws. *)
Definition register_tweet (id : string) (onTweet : option Callback)
    (H : Handlers) : option Handlers :=
  match onTweet with
  | Some f =>
      if id_truthy id
      then T ← set (tweet H) id f;
           Some {| tweet := T; retweet := retweet H; like := like H |}
      else Some H
  | None => Some H
  end.

Definition register_retweet (id : string) (onRetweet : option Callback)
    (H : Handlers) : option Handlers :=
  match onRetweet with
  | Some f =>
      if id_truthy id
      then T ← set (retweet H) id f;
           Some {| tweet := tweet H; retweet := T; like := like H |}
      else Some H
  | None => Some H
  end.

Definition register_like (id : string) (onLike : option Callback)
    (H : Handlers) : option Handlers :=
  match onLike with
  | Some f =>
      if id_truthy id
      then T ← set (like H) id f;
           Some {| tweet := tweet H; retweet := retweet H; like := T |}
      else Some H
  | None => Some H
  end.

Definition register (k : Events.Kind)
    : string → option Callback → Handlers → option Handlers :=
  match k with
  | Events.KTweet => register_tweet
  | Events.KRetweet => register_retweet
  | Events.KLike => register_like
  end.

End Engine.

(** The own properties of the three tables. *)
Definition own_view (H : Handlers) : Events.Handlers :=
  {| Events.tweet := own (tweet H);
     Events.retweet := own (retweet H);
     Events.like := own (like H) |}.

End ObjectTable.

(** ** The [Tweet] component: both hooks on one [tweetId] *)

Module Components.





End Components.

(** * Properties of the event router *)

Section Router.
Import Events.

Implicit Types (H : Handlers) (k : Kind) (intent : Intent) (P : Process).

(** Every dispatcher is a lookup in its table under the routed key. *)
Lemma BASE_HANDLERS_lookup k H intent :
  BASE_HANDLERS k H intent =
    match table k H !! routed_id k intent with
    | None => []
    | Some handler => [Invoke handler []]
    end.
Proof. by destruct k. Qed.

Lemma table_register k id cb H :
  table k (register k id cb H) =
    match cb with
    | Some f => if id_truthy id then <[id := f]> (table k H) else table k H
    | None => table k H
    end.
Proof. destruct k, cb as [f|]; simpl; try done; by destruct (id_truthy id). Qed.

Lemma table_register_other k k' id cb H :
  k ≠ k' → table k' (register k id cb H) = table k' H.
Proof.
  intros Hk. destruct k, k', cb as [f|]; simpl; try done;
    by destruct (id_truthy id).
Qed.


Lemma lookup_register_ne k id cb H id' :
  id ≠ id' → table k (register k id cb H) !! id' = table k H !! id'.
Proof.
  intros Hne. rewrite table_register.
  destruct cb as [f|]; [|done].
  destruct (id_truthy id); [|done]. by rewrite lookup_insert_ne.
Qed.




(** [loadEvents()] is started once by every mount and by nothing else. *)
Lemma mount_requests_bus id p P :
  bus_requests (useTwitterEvents_mount id p P) = S (bus_requests P) ∧
  loading (useTwitterEvents_mount id p P) = S (loading P) ∧
  bind_calls (useTwitterEvents_mount id p P) = bind_calls P.
Proof. done. Qed.

Lemma update_keeps_bus id0 p0 id p P :
  bus_requests (useTwitterEvents_update id0 p0 id p P) = bus_requests P ∧
  loading (useTwitterEvents_update id0 p0 id p P) = loading P ∧
  bind_calls (useTwitterEvents_update id0 p0 id p P) = bind_calls P.
Proof.
  unfold useTwitterEvents_update, rerun_if.
  repeat case_match; done.
Qed.

Lemma bound_count_resume k P :
  loading P ≠ 0 →
  bound_count k (loadEvents_resume true P) = S (bound_count k P).
Proof.
  unfold loadEvents_resume, bound_count. intros Hl.
  destruct (loading P) as [|n]; [done|]; simpl.
  rewrite filter_app, length_app. destruct k; simpl; lia.
Qed.

Lemma run_cons P e es : run P (e :: es) = run (step P e) es.
Proof. done. Qed.

Lemma run_app P es es' : run P (es ++ es') = run (run P es) es'.
Proof. apply foldl_app. Qed.

Lemma run_mounts P (ms : list (string * EventProps)) :
  bus_requests (run P ((λ m, Mount m.1 m.2) <$> ms)) = bus_requests P + length ms ∧
  loading (run P ((λ m, Mount m.1 m.2) <$> ms)) = loading P + length ms ∧
  bind_calls (run P ((λ m, Mount m.1 m.2) <$> ms)) = bind_calls P.
Proof.
  revert P. induction ms as [|m ms IH]; intros P.
  - simpl. repeat split; lia.
  - rewrite fmap_cons, run_cons.
    destruct (IH (step P (Mount m.1 m.2))) as (-> & -> & ->).
    simpl. repeat split; lia.
Qed.

Lemma run_settle k P (n : nat) :
  n ≤ loading P →
  bound_count k (run P (replicate n (BusSettled true))) = bound_count k P + n ∧
  bus_requests (run P (replicate n (BusSettled true))) = bus_requests P.
Proof.
  revert P. induction n as [|n IH]; intros P Hn.
  - simpl. split; lia.
  - assert (Hl : loading P ≠ 0) by lia.
    pose proof (bound_count_resume k P Hl) as Hb.
    change (replicate (S n) (BusSettled true))
      with (BusSettled true :: replicate n (BusSettled true)).
    rewrite run_cons.
    destruct (IH (step P (BusSettled true))) as [-> ->].
    + simpl. unfold loadEvents_resume. destruct (loading P); simpl in *; lia.
    + simpl. rewrite Hb. split; [lia|].
      unfold loadEvents_resume. by destruct (loading P).
Qed.

(** Every mounted instance binds each dispatcher once more: with [n]
    instances mounted and their loads settled, each dispatcher has been
    bound [n] times and the bus was asked for [n] times. *)
Lemma bind_once_per_instance k (ms : list (string * EventProps)) :
  let P :=
    run process0
      (((λ m, Mount m.1 m.2) <$> ms) ++ replicate (length ms) (BusSettled true)) in
  bound_count k P = length ms ∧ bus_requests P = length ms.
Proof.
  cbv zeta. rewrite run_app.
  destruct (run_mounts process0 ms) as (Hb & Hl & Hc).
  destruct (run_settle k (run process0 ((λ m, Mount m.1 m.2) <$> ms)) (length ms))
    as [-> ->]; [simpl in Hl; lia|].
  unfold bound_count at 1. rewrite Hc, Hb. simpl. lia.
Qed.

End Router.

Section RouterClaims.
Import Events.

Implicit Types (H : Handlers) (k : Kind) (intent : Intent) (P : Process).

(** C2.  The claim has the event bus obtained and the three dispatchers
    bound once per process, however many instances use the hook.  In the
    code the binding effect belongs to each instance: with two [Tweet]
    instances mounted and both loads resolved, [twEventsFactory()] has been
    called twice and [events.bind] six times, twice for each of "tweet",
    "retweet" and "like". *)
Theorem C2_two_instances_bind_twice :
  let P :=
    run process0
      [Mount "20" (mkEventProps None None (Some 1));
       Mount "21" (mkEventProps None None (Some 2));
       BusSettled true;
       BusSettled true] in
  bus_requests P = 2 ∧
  bind_calls P =
    [("tweet", KTweet); ("retweet", KRetweet); ("like", KLike);
     ("tweet", KTweet); ("retweet", KRetweet); ("like", KLike)] ∧
  bound_count KTweet P = 2 ∧ bound_count KRetweet P = 2 ∧ bound_count KLike P = 2.
Proof. cbv zeta. repeat split; vm_compute; reflexivity. Qed.





End RouterClaims.

(** * The handler tables along the prototype chain *)

Section TableClaims.
Import ObjectTable.

Implicit Types (fn : Callback → string → FnSlot) (T : Table) (H : Handlers)
               (k : Events.Kind) (intent : Events.Intent).




(** Under a key that names no inherited property the table is its own
    properties. *)
Lemma plain_key fn T (key : string) (f : Callback) :
  inherited_slot fn T key = Absent →
  set fn T key f = Some {| own := <[key := f]> (own T); proto := proto T |} ∧
  get fn T key =
    match own T !! key with
    | Some g => Value (FCallback g)
    | None => Undefined
    end.
Proof.
  intros Hslot. unfold set, get. rewrite Hslot. by destruct (own T !! key).
Qed.





Lemma own_view_table k H :
  Events.table k (own_view H) = own (table k H).
Proof. by destruct k. Qed.

(** X3.  For ids that name no property the table inherits, the object
    literals behave as finite maps.  The registration effect of each kind
    does not throw, inserts into the own properties of its table exactly as
    on a map, and leaves every prototype as it is; and the dispatcher of
    each kind, on an event routed to such an id, does what the lookup in the
    own properties gives: the call of the registered callback with no
    arguments, or nothing. *)
Theorem tables_are_maps_on_plain_ids fn k H (id : string) (cb : option Callback) intent :
  inherited_slot fn (table k H) id = Absent →
  inherited_slot fn (table k H) (Events.routed_id k intent) = Absent →
  (∃ H',
      register fn k id cb H = Some H' ∧
      own_view H' = Events.register k id cb (own_view H) ∧
      ∀ k', proto (table k' H') = proto (table k' H)) ∧
  effects (BASE_HANDLERS fn k H intent)
    = Some (Events.BASE_HANDLERS k (own_view H) intent).
Proof.
  intros Hid Hroute. split.
  - destruct cb as [f|]; [|exists H; by destruct k].
    destruct (id_truthy id) eqn:Ht.
    + destruct (plain_key fn (table k H) id f Hid) as [Hset _].
      destruct k; simpl in *; rewrite Ht, Hset; simpl;
        (eexists; split; [reflexivity|]; split; [done|by intros []]).
    + exists H. destruct k; simpl; rewrite Ht; done.
  - rewrite BASE_HANDLERS_lookup, own_view_table.
    assert (Hd : BASE_HANDLERS fn k H intent
                 = dispatch fn (table k H) (Events.routed_id k intent))
      by by destruct k.
    rewrite Hd. unfold dispatch, get. rewrite Hroute.
    by destruct (own (table k H) !! Events.routed_id k intent).
Qed.

Lemma tables_are_maps_on_plain_ids_witness :
  effects
    (BASE_HANDLERS arrow_function Events.KRetweet
       (mkHandlers empty_table
          (mkTable {[ "77" := 4 ]} (CallbackProto 9)) empty_table)
       (Events.mkIntent (Events.mkData "" "77")))
  = Some
      (Events.BASE_HANDLERS Events.KRetweet
         (own_view
            (mkHandlers empty_table
               (mkTable {[ "77" := 4 ]} (CallbackProto 9)) empty_table))
         (Events.mkIntent (Events.mkData "" "77"))).
Proof.
  apply (tables_are_maps_on_plain_ids arrow_function Events.KRetweet
           (mkHandlers empty_table
              (mkTable {[ "77" := 4 ]} (CallbackProto 9)) empty_table)
           "78" (Some 5) (Events.mkIntent (Events.mkData "" "77")));
    reflexivity.
Defined.

End TableClaims.

(** * Properties of the mount controller *)

Section Controller.
Import Widget.

Implicit Types (st : Instance) (s : Session) (p : Props) (sid : nat)
               (children : list Element) (h : Heap) (v : JSVal).

(** *** The DOM helpers *)

Lemma tagged_after_sweep children :
  tagged (removeChildrenWithAttribute children childDivIdentifyingAttribute) = [].
Proof.
  unfold tagged, removeChildrenWithAttribute.
  induction children as [|c cs IH]; [done|].
  rewrite filter_cons. case_decide as Hc; [|done].
  rewrite filter_cons. case_decide; [congruence|done].
Qed.

Lemma sweep_keeps_untagged children c :
  hasAttribute childDivIdentifyingAttribute c = false →
  c ∈ children →
  c ∈ removeChildrenWithAttribute children childDivIdentifyingAttribute.
Proof. intros Hc Hin. by apply list_elem_of_filter. Qed.

Lemma new_child_is_tagged (n : nat) :
  hasAttribute childDivIdentifyingAttribute
    (setAttribute childDivIdentifyingAttribute "yes" (createElement n "div")) = true.
Proof.
  unfold hasAttribute, setAttribute; simpl.
  apply bool_decide_eq_true_2. rewrite lookup_insert_eq. eauto.
Qed.

Lemma tagged_append children c :
  hasAttribute childDivIdentifyingAttribute c = true →
  tagged (appendChild children c) = (tagged children ++ [c])%list.
Proof.
  intros Hc. unfold tagged, appendChild.
  rewrite filter_app, filter_cons. by case_decide.
Qed.

Lemma tagged_remove_le (n : nat) children :
  length (tagged (remove n children)) ≤ length (tagged children).
Proof.
  unfold tagged, remove.
  induction children as [|c cs IH]; [done|].
  rewrite !filter_cons.
  repeat case_decide; simpl; rewrite ?filter_cons;
    repeat case_decide; simpl; try done; lia.
Qed.

(** *** Fields a part of the effect leaves alone *)

Lemma useTwitterWidget_cleanup_frame st :
  error (useTwitterWidget_cleanup st) = error st ∧
  ref_current (useTwitterWidget_cleanup st) = ref_current st ∧
  heap (useTwitterWidget_cleanup st) = heap st ∧
  next_el (useTwitterWidget_cleanup st) = next_el st ∧
  trace (useTwitterWidget_cleanup st) = trace st ∧
  length (sessions (useTwitterWidget_cleanup st)) = length (sessions st).
Proof.
  unfold useTwitterWidget_cleanup. destruct (cleanup st); simpl; [|done].
  repeat split. apply length_alter.
Qed.

Lemma catch_frame sid (e : JSVal) st :
  error (catch sid e st) = e ∧
  ref_current (catch sid e st) = ref_current st ∧
  heap (catch sid e st) = heap st ∧
  trace (catch sid e st) = (trace st ++ [ConsoleError e; SetError e])%list.
Proof. unfold catch; simpl. by rewrite <- app_assoc. Qed.

Lemma after_twWidgetFactory_ref sid o st :
  ref_current (loadWidget_after_twWidgetFactory sid o st) = ref_current st.
Proof.
  unfold loadWidget_after_twWidgetFactory.
  destruct (sessions st !! sid) as [s|]; [|done].
  case_decide; [|done].
  destruct o as [wf|e]; [|done].
  destruct (cloneShallow (primaryArg (props s)) (heap st)) as [primary h1].
  destruct (cloneShallow (options (props s)) h1) as [opts h2].
  by destruct (throws wf).
Qed.

(** *** The sentinel count along a step *)

Lemma commit_mounted_count p st children :
  ref_current st = Some children →
  tagged_count (step st (Commit p)) = 1.
Proof.
  intros Href. simpl.
  destruct (useTwitterWidget_cleanup_frame st) as (_ & Hr & _).
  unfold useTwitterWidget_effect; simpl. rewrite Hr, Href.
  unfold loadWidget_start; simpl. unfold tagged_count; simpl.
  rewrite tagged_append by apply new_child_is_tagged.
  by rewrite tagged_after_sweep.
Qed.

Lemma commit_unmounted_count p st :
  ref_current st = None →
  tagged_count (step st (Commit p)) = 0.
Proof.
  intros Href. simpl.
  destruct (useTwitterWidget_cleanup_frame st) as (_ & Hr & _).
  unfold useTwitterWidget_effect; simpl. rewrite Hr, Href. unfold tagged_count; simpl.
  by rewrite Hr, Href.
Qed.

Lemma after_factoryCall_count sid o st :
  tagged_count (loadWidget_after_factoryCall sid o st) ≤ tagged_count st.
Proof.
  unfold loadWidget_after_factoryCall.
  destruct (sessions st !! sid) as [s|]; [|done].
  case_decide; [|done].
  destruct o as [resultMaybe|e]; [|done].
  destruct (negb (truthy resultMaybe) && negb (isCanceled s)); [done|].
  unfold tagged_count; simpl.
  destruct (ref_current st) as [children|] eqn:Href; simpl; [|by rewrite Href].
  destruct (isCanceled s); simpl.
  - apply tagged_remove_le.
  - destruct (onLoad (props s)); simpl; by rewrite Href.
Qed.

Lemma step_count st (e : Event) :
  tagged_count st ≤ 1 → tagged_count (step st e) ≤ 1.
Proof.
  intros Hst. destruct e as [p| |sid o|sid o].
  - destruct (ref_current st) as [children|] eqn:Href.
    + by rewrite (commit_mounted_count p st children).
    + rewrite commit_unmounted_count by done. lia.
  - unfold tagged_count; simpl. lia.
  - unfold tagged_count in *; simpl. by rewrite after_twWidgetFactory_ref.
  - simpl. pose proof (after_factoryCall_count sid o st). lia.
Qed.

Lemma run_count st (es : list Event) :
  tagged_count st ≤ 1 → tagged_count (run st es) ≤ 1.
Proof.
  revert st. induction es as [|e es IH]; intros st Hst; [done|].
  apply IH. by apply step_count.
Qed.

End Controller.

Section Cloning.
Import Widget.

Implicit Types (st : Instance) (s : Session) (sid : nat)
               (h : Heap) (v : JSVal) (l : loc) (o : Obj).

(** The clone of an object is a new object with the same fields; what is
    not an object of the heap comes back as it is.  In both cases the heap
    keeps every object it had, and the result refers to none of them. *)
Lemma cloneShallow_spec v h :
  (∃ l o, v = VObj l ∧ h !! l = Some o ∧
          cloneShallow v h = (VObj (fresh (dom h)), <[fresh (dom h) := o]> h) ∧
          h !! fresh (dom h) = None) ∨
  (cloneShallow v h = (v, h) ∧ outside h v).
Proof.
  destruct v as [| | | | |l|]; simpl;
    try (right; split; [done|]; intros l0 Hl0; discriminate).
  destruct (h !! l) as [o|] eqn:Hl.
  - left. exists l, o. repeat split; try done.
    apply not_elem_of_dom, is_fresh.
  - right. split; [done|]. intros l0 [= <-]. done.
Qed.

Lemma cloneShallow_keeps v h l o :
  h !! l = Some o → (cloneShallow v h).2 !! l = Some o.
Proof.
  intros Hl.
  destruct (cloneShallow_spec v h) as [(l0 & o0 & _ & _ & -> & Hf)|[-> _]]; simpl.
  - rewrite lookup_insert_ne; [done|]. intros Heq. congruence.
  - done.
Qed.

Lemma cloneShallow_outside v h :
  outside h (cloneShallow v h).1.
Proof.
  destruct (cloneShallow_spec v h) as [(l0 & o0 & _ & _ & -> & Hf)|[-> Ho]]; simpl.
  - by intros l [= <-].
  - done.
Qed.

(** The clone has the fields of the original. *)
Lemma cloneShallow_copy l o h :
  h !! l = Some o →
  ∃ l', cloneShallow (VObj l) h = (VObj l', <[l' := o]> h) ∧ l' ≠ l ∧
        (cloneShallow (VObj l) h).2 !! l' = Some o.
Proof.
  intros Hl. exists (fresh (dom h)). simpl. rewrite Hl. simpl.
  split; [done|]. split.
  - intros Heq. pose proof (is_fresh (dom h)) as Hf.
    rewrite Heq in Hf. apply Hf, elem_of_dom. eauto.
  - apply lookup_insert_eq.
Qed.

Lemma mutate_at_other v (f : Obj → Obj) h l :
  v ≠ VObj l → mutate_at v f h !! l = h !! l.
Proof.
  intros Hv. destruct v as [| | | | |l0|]; simpl; try done.
  destruct (h !! l0) eqn:Hl0; [|done].
  apply lookup_insert_ne. congruence.
Qed.

Lemma apply_muts_other (primary opts : JSVal) (ms : list ArgMut) h l :
  primary ≠ VObj l → opts ≠ VObj l →
  apply_muts primary opts ms h !! l = h !! l.
Proof.
  intros Hp Ho. revert h. unfold apply_muts.
  induction ms as [|m ms IH]; intros h; [done|]. simpl.
  rewrite IH. destruct m as [[] key v|[] key]; simpl; by apply mutate_at_other.
Qed.

(** The heap after the factory was called, and the arguments it got. *)
Lemma after_twWidgetFactory_call sid s (wf : ThirdParty) st :
  sessions st !! sid = Some s →
  pc s = AwaitFactory →
  let c1 := cloneShallow (primaryArg (props s)) (heap st) in
  let c2 := cloneShallow (options (props s)) c1.2 in
  heap (loadWidget_after_twWidgetFactory sid (Fulfilled wf) st)
    = apply_muts c1.1 c2.1 (mutations wf) c2.2 ∧
  FactoryCall (factoryFunctionName (props s)) c1.1 (childEl s) c2.1
    ∈ trace (loadWidget_after_twWidgetFactory sid (Fulfilled wf) st).
Proof.
  intros Hs Hpc. unfold loadWidget_after_twWidgetFactory. rewrite Hs.
  rewrite decide_True by done. simpl.
  destruct (cloneShallow (primaryArg (props s)) (heap st)) as [primary h1].
  simpl.
  destruct (cloneShallow (options (props s)) h1) as [opts h2]. simpl.
  destruct (throws wf) as [e|]; simpl; (split; [done|]); set_solver.
Qed.

Lemma after_twWidgetFactory_keeps sid (r : Settled ThirdParty) st l o :
  heap st !! l = Some o → heap (loadWidget_after_twWidgetFactory sid r st) !! l = Some o.
Proof.
  intros Hl. unfold loadWidget_after_twWidgetFactory.
  destruct (sessions st !! sid) as [s|]; [|done].
  case_decide; [|done].
  destruct r as [wf|e]; [|done].
  pose proof (cloneShallow_keeps (primaryArg (props s)) (heap st) l o Hl) as H1.
  pose proof (cloneShallow_outside (primaryArg (props s)) (heap st)) as O1.
  destruct (cloneShallow (primaryArg (props s)) (heap st)) as [primary h1].
  simpl in *.
  pose proof (cloneShallow_keeps (options (props s)) h1 l o H1) as H2.
  pose proof (cloneShallow_outside (options (props s)) h1) as O2.
  destruct (cloneShallow (options (props s)) h1) as [opts h2].
  simpl in *.
  assert (Hheap : apply_muts primary opts (mutations wf) h2 !! l = Some o).
  { rewrite apply_muts_other; [done| |].
    - intros ->. specialize (O1 l eq_refl). congruence.
    - intros ->. specialize (O2 l eq_refl). congruence. }
  by destruct (throws wf).
Qed.

Lemma after_factoryCall_heap sid (r : Settled JSVal) st :
  heap (loadWidget_after_factoryCall sid r st) = heap st.
Proof.
  unfold loadWidget_after_factoryCall.
  destruct (sessions st !! sid) as [s|]; [|done].
  case_decide; [|done].
  destruct r as [resultMaybe|e]; [|done].
  destruct (negb (truthy resultMaybe) && negb (isCanceled s)); [done|].
  simpl. destruct (ref_current st); [|done].
  destruct (isCanceled s); [done|]. by destruct (onLoad (props s)).
Qed.

Lemma commit_heap p st : heap (step st (Commit p)) = heap st.
Proof.
  simpl. destruct (useTwitterWidget_cleanup_frame st) as (_ & Hr & Hh & _).
  unfold useTwitterWidget_effect; simpl. rewrite Hr.
  destruct (ref_current st); simpl; [|done].
  unfold loadWidget_start; simpl. done.
Qed.

Lemma step_keeps st (e : Event) l o :
  heap st !! l = Some o → heap (step st e) !! l = Some o.
Proof.
  intros Hl. destruct e as [p| |sid r|sid r].
  - by rewrite commit_heap.
  - simpl. destruct (useTwitterWidget_cleanup_frame st) as (_ & _ & -> & _). done.
  - by apply after_twWidgetFactory_keeps.
  - simpl. by rewrite after_factoryCall_heap.
Qed.

Lemma run_keeps st (es : list Event) l o :
  heap st !! l = Some o → heap (run st es) !! l = Some o.
Proof.
  revert st. induction es as [|e es IH]; intros st Hl; [done|].
  apply IH. by apply step_keeps.
Qed.

(** The third party does change what it is given: here it overwrites
    [size] in its options, and the write lands in the clone. *)
Example mutation_lands_in_clone :
  let st :=
    run (initial (Some []) {[ 0 := {[ "size" := VStr "large" ]} ]} 0)
      [Commit (component_props Follow (VStr "alice") (VObj 0) None);
       FactoryLoaded 0
         (Fulfilled (mkThirdParty [SetProp Options "size" (VNum 3)] None))] in
  FactoryCall "createFollowButton" (VStr "alice") 0 (VObj 1) ∈ trace st ∧
  (heap st !! 1) ≫= (λ o, o !! "size") = Some (VNum 3) ∧
  (heap st !! 0) ≫= (λ o, o !! "size") = Some (VStr "large").
Proof.
  cbv zeta. split; [|split]; [|vm_compute; reflexivity..].
  vm_compute. set_solver.
Qed.

End Cloning.

Section ControllerClaims.
Import Widget.

Implicit Types (st : Instance) (s : Session) (p : Props) (sid : nat)
               (children : list Element) (l : loc) (o : Obj).

(** A canceled session whose factory call is fulfilled, with a result or
    without one, reports nothing and calls nothing. *)
Lemma canceled_fulfilled_is_silent st sid s (resultMaybe : JSVal) :
  sessions st !! sid = Some s →
  pc s = AwaitWidget →
  isCanceled s = true →
  error (step st (WidgetSettled sid (Fulfilled resultMaybe))) = error st ∧
  trace (step st (WidgetSettled sid (Fulfilled resultMaybe))) = trace st.
Proof.
  intros Hs Hpc Hc. simpl. unfold loadWidget_after_factoryCall.
  rewrite Hs, decide_True, Hc, andb_false_r by done. simpl.
  by destruct (ref_current st).
Qed.

(** A rejection reaches [setError] whether the session is canceled or not. *)
Lemma rejection_sets_error st sid s (e : JSVal) :
  sessions st !! sid = Some s →
  pc s = AwaitWidget →
  error (step st (WidgetSettled sid (Rejected e))) = e ∧
  trace (step st (WidgetSettled sid (Rejected e)))
    = (trace st ++ [ConsoleError e; SetError e])%list.
Proof.
  intros Hs Hpc. simpl. unfold loadWidget_after_factoryCall.
  rewrite Hs, decide_True by done.
  destruct (catch_frame sid e st) as (He & _ & _ & Ht). done.
Qed.

(** C1.  The claim has a canceled session set no error whatever its
    factory call does.  In the code a rejected call goes through [catch],
    which does not look at [isCanceled]: a [Follow] is mounted for "alice",
    the username changes to "bob" (which cancels the first session), and
    then the first session's call rejects; the error state, which the
    second run had reset to [null], becomes the rejection.  [onLoad] is not
    called. *)
Theorem C1_canceled_rejection_sets_error :
  let alice := component_props Follow (VStr "alice") VUndefined (Some 1) in
  let bob := component_props Follow (VStr "bob") VUndefined (Some 1) in
  let st :=
    run (initial (Some []) ∅ 0)
      [Commit alice; Commit bob; FactoryLoaded 0 (Fulfilled (mkThirdParty [] None))] in
  let st' := step st (WidgetSettled 0 (Rejected (VError "boom"))) in
  (isCanceled <$> sessions st !! 0) = Some true ∧
  (pc <$> sessions st !! 0) = Some AwaitWidget ∧
  error st = VNull ∧
  error st' = VError "boom" ∧
  trace st' = (trace st ++ [ConsoleError (VError "boom"); SetError (VError "boom")])%list.
Proof. cbv zeta. repeat split; vm_compute; reflexivity. Qed.

(** C3.  Whatever happens to an instance whose mount point starts without
    tagged children, after every event the mount point has at most one
    child that carries "twdiv"; and every run of the effect on a mounted
    instance first leaves no tagged child (the sweep) and then exactly one
    (the new container). *)
Theorem C3_at_most_one_container (foreign : list Element) (h0 : Heap) (n0 : nat)
    (es : list Event) :
  tagged foreign = [] →
  (∀ k : nat, tagged_count (run (initial (Some foreign) h0 n0) (take k es)) ≤ 1) ∧
  (∀ st p children,
      ref_current st = Some children →
      tagged (removeChildrenWithAttribute children childDivIdentifyingAttribute) = [] ∧
      tagged_count (step st (Commit p)) = 1).
Proof.
  intros Hf. split.
  - intros k. apply run_count. unfold tagged_count; simpl. rewrite Hf. simpl. lia.
  - intros st p children Href. split.
    + apply tagged_after_sweep.
    + by apply (commit_mounted_count p st children).
Qed.

Lemma C3_at_most_one_container_witness :
  tagged_count
    (run (initial (Some [createElement 100 "span"]) ∅ 0)
       (take 3
          [Commit (component_props Timeline (VStr "alice") VUndefined None);
           Commit (component_props Timeline (VStr "bob") VUndefined None);
           Commit (component_props Timeline (VStr "carol") VUndefined None);
           Unmount])) ≤ 1.
Proof.
  apply (C3_at_most_one_container [createElement 100 "span"] ∅ 0).
  reflexivity.
Defined.

(** C4.  When the factory call is fulfilled without a usable result and the
    session is not canceled, the error state becomes the [Error] "Twitter
    could not create widget. If it is a Timeline or Tweet, ensure the
    screenName/tweetId exists.", it is logged, and a component that was
    given [renderError] renders [renderError(error)]. *)
Theorem C4_no_result_reports_error st sid s (resultMaybe : JSVal) :
  sessions st !! sid = Some s →
  pc s = AwaitWidget →
  truthy resultMaybe = false →
  isCanceled s = false →
  let st' := step st (WidgetSettled sid (Fulfilled resultMaybe)) in
  error st' =
    VError "Twitter could not create widget. If it is a Timeline or Tweet, ensure the screenName/tweetId exists." ∧
  error st' ≠ VNull ∧
  trace st' = (trace st ++ [ConsoleError (error st'); SetError (error st')])%list ∧
  (∀ (M : Type) (renderError : JSVal → M),
      error_child (error st') (Some renderError) = ChildMarkup (renderError (error st'))).
Proof.
  intros Hs Hpc Hr Hc. simpl. unfold loadWidget_after_factoryCall.
  rewrite Hs, decide_True, Hr, Hc by done. simpl.
  repeat split; try done. by rewrite <- app_assoc.
Qed.

Lemma C4_no_result_reports_error_witness :
  error
    (step
       (run (initial (Some []) ∅ 0)
          [Commit (component_props Tweet (VStr "0") VUndefined None);
           FactoryLoaded 0 (Fulfilled (mkThirdParty [] None))])
       (WidgetSettled 0 (Fulfilled VUndefined)))
  = VError "Twitter could not create widget. If it is a Timeline or Tweet, ensure the screenName/tweetId exists.".
Proof.
  apply (C4_no_result_reports_error
           (run (initial (Some []) ∅ 0)
              [Commit (component_props Tweet (VStr "0") VUndefined None);
               FactoryLoaded 0 (Fulfilled (mkThirdParty [] None))])
           0
           (mkSession false (component_props Tweet (VStr "0") VUndefined None)
              0 AwaitWidget)
           VUndefined); reflexivity.
Defined.

(** C7.  When the widget factory has loaded, the third-party function is
    called with the results of [cloneShallow] on the primary argument and
    on the options; neither of them is a reference to an object the heap
    held before, so whatever the function writes to or deletes from its
    arguments, every object the caller owns keeps its fields, through this
    call and through everything that happens afterwards. *)
Theorem C7_factory_gets_clones st sid s (wf : ThirdParty) (es : list Event) l o :
  sessions st !! sid = Some s →
  pc s = AwaitFactory →
  heap st !! l = Some o →
  let c1 := cloneShallow (primaryArg (props s)) (heap st) in
  let c2 := cloneShallow (options (props s)) c1.2 in
  let st' := step st (FactoryLoaded sid (Fulfilled wf)) in
  FactoryCall (factoryFunctionName (props s)) c1.1 (childEl s) c2.1 ∈ trace st' ∧
  c1.1 ≠ VObj l ∧ c2.1 ≠ VObj l ∧
  (primaryArg (props s) = VObj l → ∃ l', c1.1 = VObj l' ∧ l' ≠ l ∧ c1.2 !! l' = Some o) ∧
  (options (props s) = VObj l → ∃ l', c2.1 = VObj l' ∧ l' ≠ l ∧ c2.2 !! l' = Some o) ∧
  heap st' !! l = Some o ∧
  heap (run st' es) !! l = Some o.
Proof.
  intros Hs Hpc Hl c1 c2 st'.
  destruct (after_twWidgetFactory_call sid s wf st Hs Hpc) as [_ Hcall].
  pose proof (cloneShallow_outside (primaryArg (props s)) (heap st)) as O1.
  pose proof (cloneShallow_keeps (primaryArg (props s)) (heap st) l o Hl) as K1.
  pose proof (cloneShallow_outside (options (props s)) c1.2) as O2.
  assert (Hst' : heap st' !! l = Some o) by by apply step_keeps.
  split; [exact Hcall|].
  split; [intros Heq; specialize (O1 l Heq); congruence|].
  split; [intros Heq; specialize (O2 l Heq); fold c1 in K1; congruence|].
  split; [|split; [|split; [done|by apply run_keeps]]].
  - intros Hp. subst c1. rewrite Hp.
    destruct (cloneShallow_copy l o (heap st) Hl) as (l' & Hc & Hne & Hcopy).
    exists l'. by rewrite Hc in *.
  - intros Hp. subst c2. rewrite Hp. fold c1 in K1.
    destruct (cloneShallow_copy l o c1.2 K1) as (l' & Hc & Hne & Hcopy).
    exists l'. by rewrite Hc in *.
Qed.

Lemma C7_factory_gets_clones_witness :
  let opts : Obj := {[ "size" := VStr "large" ]} in
  let st :=
    run (initial (Some []) {[ 0 := opts ]} 0)
      [Commit (component_props Follow (VStr "alice") (VObj 0) None)] in
  heap (step st
          (FactoryLoaded 0
             (Fulfilled (mkThirdParty [SetProp Options "size" (VNum 3);
                                       DeleteProp Options "size"] None))))
    !! 0 = Some opts.
Proof.
  cbv zeta.
  apply (C7_factory_gets_clones
           (run (initial (Some []) {[ 0 := {[ "size" := VStr "large" ]} ]} 0)
              [Commit (component_props Follow (VStr "alice") (VObj 0) None)])
           0
           (mkSession false (component_props Follow (VStr "alice") (VObj 0) None)
              0 AwaitFactory)
           (mkThirdParty [SetProp Options "size" (VNum 3); DeleteProp Options "size"]
              None)
           [] 0 {[ "size" := VStr "large" ]}); reflexivity.
Defined.

(** C8.  When the factory call is fulfilled with a usable result, the
    session is not canceled and the mount point is still there, [onLoad],
    if the caller gave one, is called once and with no arguments; nothing
    else happens: the error state and the mount point stay as they were. *)
Theorem C8_onLoad_on_success st sid s (resultMaybe : JSVal) children :
  sessions st !! sid = Some s →
  pc s = AwaitWidget →
  truthy resultMaybe = true →
  isCanceled s = false →
  ref_current st = Some children →
  let st' := step st (WidgetSettled sid (Fulfilled resultMaybe)) in
  trace st' =
    (trace st ++ match onLoad (props s) with
                 | Some f => [Invoke f []]
                 | None => []
                 end)%list ∧
  error st' = error st ∧
  ref_current st' = Some children.
Proof.
  intros Hs Hpc Hr Hc Href. simpl. unfold loadWidget_after_factoryCall.
  rewrite Hs, decide_True, Hr, Hc by done. simpl. rewrite Href.
  destruct (onLoad (props s)); simpl; [done|]. by rewrite app_nil_r.
Qed.

Lemma C8_onLoad_on_success_witness :
  let alice := component_props Follow (VStr "alice") VUndefined (Some 4) in
  let st :=
    run (initial (Some []) ∅ 0)
      [Commit alice; FactoryLoaded 0 (Fulfilled (mkThirdParty [] None))] in
  trace (step st (WidgetSettled 0 (Fulfilled (VObj 9))))
    = (trace st ++ [Invoke 4 []])%list.
Proof.
  cbv zeta.
  apply (C8_onLoad_on_success
           (run (initial (Some []) ∅ 0)
              [Commit (component_props Follow (VStr "alice") VUndefined (Some 4));
               FactoryLoaded 0 (Fulfilled (mkThirdParty [] None))])
           0
           (mkSession false (component_props Follow (VStr "alice") VUndefined (Some 4))
              0 AwaitWidget)
           (VObj 9)
           [setAttribute childDivIdentifyingAttribute "yes" (createElement 0 "div")]);
    reflexivity.
Defined.

(** C9.  When [ref.current] is [null] as the effect runs, the effect only
    resets the error state: no node is created, the mount point stays
    absent, [loadWidget] does not start a session, neither
    [twWidgetFactory] nor a factory function is called, and the error state
    is [null]. *)
Theorem C9_skip_without_mount_point st p :
  ref_current st = None →
  let st' := step st (Commit p) in
  ref_current st' = None ∧
  next_el st' = next_el st ∧
  length (sessions st') = length (sessions st) ∧
  heap st' = heap st ∧
  error st' = VNull ∧
  trace st' = (trace st ++ [SetError VNull])%list ∧
  (∀ x, x ∈ trace st' → x ∈ trace st ∨ is_factory_call x = false).
Proof.
  intros Href. simpl.
  destruct (useTwitterWidget_cleanup_frame st) as (_ & Hr & Hh & Hn & Ht & Hlen).
  unfold useTwitterWidget_effect; simpl. rewrite Hr, Href. simpl.
  rewrite Hr, Href, Hh, Hn, Ht, Hlen. repeat split; try done.
  intros x [Hx|Hx]%elem_of_app; [by left|].
  apply list_elem_of_singleton in Hx as ->. by right.
Qed.

Lemma C9_skip_without_mount_point_witness :
  let st' :=
    step (initial None ∅ 0)
      (Commit (component_props Share (VStr "https://example.org") VUndefined (Some 2))) in
  ref_current st' = None ∧ next_el st' = 0 ∧ sessions st' = [] ∧
  error st' = VNull ∧ trace st' = [SetError VNull].
Proof.
  cbv zeta.
  destruct (C9_skip_without_mount_point (initial None ∅ 0)
              (component_props Share (VStr "https://example.org") VUndefined (Some 2))
              eq_refl)
    as (Href & Hn & Hlen & _ & He & Ht & _).
  repeat split; try done; by apply nil_length_inv.
Defined.

End ControllerClaims.

(** * More on the event router *)

Section RouterMore.
Import Events.

Implicit Types (H : Handlers) (k : Kind) (intent : Intent) (P : Process)
               (p : EventProps).

Lemma table_with_handlers_register k k' id cb P :
  table k' (handlers (with_handlers (register k id cb) P)) =
    if decide (k = k') then table k' (register k' id cb (handlers P))
    else table k' (handlers P).
Proof.
  case_decide as Hk; simpl.
  - by subst.
  - by apply table_register_other.
Qed.

(** What a mount does to the table of kind [k]: the registration of that
    kind and nothing else. *)
Lemma table_after_mount k id p P :
  table k (handlers (useTwitterEvents_mount id p P)) =
    table k (register k id (callback_of k p) (handlers P)).
Proof.
  unfold useTwitterEvents_mount, with_handlers.
  destruct k; simpl;
    destruct (onLike p), (onRetweet p), (onTweet p); simpl;
    destruct (id_truthy id); simpl; done.
Qed.

(** What an update does to the table of kind [k]: the registration of that
    kind if one of its deps changed, nothing otherwise. *)
Lemma table_after_update k id0 p0 id p P :
  table k (handlers (useTwitterEvents_update id0 p0 id p P)) =
    if bool_decide (id0 = id ∧ callback_of k p0 = callback_of k p)
    then table k (handlers P)
    else table k (register k id (callback_of k p) (handlers P)).
Proof.
  unfold useTwitterEvents_update, rerun_if, with_handlers.
  destruct k; simpl;
    repeat (case_bool_decide; simpl); try done;
    destruct (onLike p), (onRetweet p), (onTweet p); simpl;
    destruct (id_truthy id); simpl; done.
Qed.

Lemma register_keeps_entries k id cb H (X : string) :
  is_Some (table k H !! X) → is_Some (table k (register k id cb H) !! X).
Proof.
  intros HX. rewrite table_register.
  destruct cb as [f|]; [|done].
  destruct (id_truthy id); [|done].
  destruct (decide (id = X)) as [->|Hne].
  - rewrite lookup_insert_eq. eauto.
  - by rewrite lookup_insert_ne.
Qed.

Lemma step_keeps_entries k P (e : Event) (X : string) :
  is_Some (table k (handlers P) !! X) →
  is_Some (table k (handlers (step P e)) !! X).
Proof.
  intros HX. destruct e as [id p|id0 p0 id p|ok]; cbn [step].
  - rewrite table_after_mount. by apply register_keeps_entries.
  - rewrite table_after_update. case_bool_decide; [done|].
    by apply register_keeps_entries.
  - unfold loadEvents_resume. by destruct (loading P).
Qed.

(** X1.  Nothing the hook does removes an entry of [HANDLERS]: an id that
    has a handler in a table keeps one through every later mount, update
    and bus settlement, so an event routed to that id always invokes some
    callback, also after the component that registered it is gone. *)
Theorem handlers_never_removed k P (es : list Event) (X : string) intent :
  is_Some (table k (handlers P) !! X) →
  routed_id k intent = X →
  is_Some (table k (handlers (run P es)) !! X) ∧
  ∃ g, BASE_HANDLERS k (handlers (run P es)) intent = [Invoke g []].
Proof.
  intros HX Hr.
  assert (Hrun : is_Some (table k (handlers (run P es)) !! X)).
  { revert P HX. induction es as [|e es IH]; intros P HX; [done|].
    rewrite run_cons. apply IH. by apply step_keeps_entries. }
  split; [done|]. destruct Hrun as [g Hg]. exists g.
  by rewrite BASE_HANDLERS_lookup, Hr, Hg.
Qed.

Lemma handlers_never_removed_witness :
  ∃ g, BASE_HANDLERS KRetweet
         (handlers
            (run (useTwitterEvents_mount "9" (mkEventProps None (Some 3) None) process0)
               [Update "9" (mkEventProps None (Some 3) None) "9" (mkEventProps None None None);
                Mount "10" (mkEventProps None (Some 4) None);
                BusSettled false]))
         (mkIntent (mkData "0" "9")) = [Invoke g []].
Proof.
  apply (handlers_never_removed KRetweet
           (useTwitterEvents_mount "9" (mkEventProps None (Some 3) None) process0)
           [Update "9" (mkEventProps None (Some 3) None) "9" (mkEventProps None None None);
            Mount "10" (mkEventProps None (Some 4) None);
            BusSettled false]
           "9" (mkIntent (mkData "0" "9"))).
  - exists 3. reflexivity.
  - reflexivity.
Defined.

(** X2.  A registered callback stays in force until another registration
    for the same id and kind passes the guard: a mount or an update that is
    for another id, or that comes without the callback of this kind, leaves
    the entry as it is, and the old callback still fires. *)
Theorem stale_handler_still_fires k P (e : Event) (X : string) (h : Callback) intent :
  table k (handlers P) !! X = Some h →
  routed_id k intent = X →
  match e with
  | Mount id p | Update _ _ id p => id ≠ X ∨ callback_of k p = None
  | BusSettled _ => True
  end →
  BASE_HANDLERS k (handlers (step P e)) intent = [Invoke h []].
Proof.
  intros HX Hr He.
  assert (Hreg : ∀ id p, id ≠ X ∨ callback_of k p = None →
            table k (register k id (callback_of k p) (handlers P)) !! X = Some h).
  { intros id p [Hne| ->].
    - by rewrite lookup_register_ne.
    - by rewrite table_register. }
  rewrite BASE_HANDLERS_lookup, Hr.
  destruct e as [id p|id0 p0 id p|ok]; cbn [step].
  - by rewrite table_after_mount, Hreg.
  - rewrite table_after_update. case_bool_decide; [by rewrite HX|by rewrite Hreg].
  - unfold loadEvents_resume. destruct (loading P); simpl; by rewrite HX.
Qed.

Lemma stale_handler_still_fires_witness :
  BASE_HANDLERS KLike
    (handlers
       (step (useTwitterEvents_mount "5" (mkEventProps None None (Some 1)) process0)
          (Update "5" (mkEventProps None None (Some 1))
                  "5" (mkEventProps None None None))))
    (mkIntent (mkData "5" "")) = [Invoke 1 []].
Proof.
  apply (stale_handler_still_fires KLike
           (useTwitterEvents_mount "5" (mkEventProps None None (Some 1)) process0)
           (Update "5" (mkEventProps None None (Some 1))
                   "5" (mkEventProps None None None))
           "5" 1 (mkIntent (mkData "5" ""))).
  - reflexivity.
  - reflexivity.
  - right. reflexivity.
Defined.

Lemma mounts_cons (e : Event) (es : list Event) :
  mounts (e :: es) = (if is_mount e then 1 else 0) + mounts es.
Proof.
  unfold mounts. rewrite filter_cons.
  destruct (is_mount e); case_decide; simpl; congruence.
Qed.

Lemma bound_count_settle k P (ok : bool) :
  bound_count k (loadEvents_resume ok P) =
    bound_count k P + (if ok then match loading P with O => 0 | S _ => 1 end else 0).
Proof.
  unfold loadEvents_resume, bound_count.
  destruct (loading P) as [|n]; simpl; [destruct ok; lia|].
  destruct ok; [|lia].
  rewrite filter_app, length_app. destruct k; simpl; lia.
Qed.

(** The counters along a step. *)
Lemma step_counters k P (e : Event) :
  bus_requests (step P e) = bus_requests P + (if is_mount e then 1 else 0) ∧
  bound_count k (step P e) + loading (step P e) ≤
    bound_count k P + loading P + (if is_mount e then 1 else 0) ∧
  bound_count k (step P e) - bound_count KLike (step P e) =
    bound_count k P - bound_count KLike P ∧
  bound_count KLike (step P e) - bound_count k (step P e) =
    bound_count KLike P - bound_count k P.
Proof.
  destruct e as [id p|id0 p0 id p|ok]; cbn [step is_mount].
  - destruct (mount_requests_bus id p P) as (-> & -> & Hb).
    unfold bound_count. rewrite Hb. repeat split; lia.
  - destruct (update_keeps_bus id0 p0 id p P) as (-> & -> & Hb).
    unfold bound_count. rewrite Hb. repeat split; lia.
  - rewrite !bound_count_settle.
    assert (bus_requests (loadEvents_resume ok P) = bus_requests P) as ->
      by (unfold loadEvents_resume; by destruct (loading P)).
    assert (loading (loadEvents_resume ok P) = pred (loading P)) as ->
      by (unfold loadEvents_resume; destruct (loading P) eqn:E; simpl; lia).
    destruct ok, (loading P); simpl; repeat split; lia.
Qed.

Lemma run_counters k P (es : list Event) :
  bus_requests (run P es) = bus_requests P + mounts es ∧
  bound_count k (run P es) + loading (run P es) ≤
    bound_count k P + loading P + mounts es ∧
  bound_count k (run P es) - bound_count KLike (run P es) =
    bound_count k P - bound_count KLike P ∧
  bound_count KLike (run P es) - bound_count k (run P es) =
    bound_count KLike P - bound_count k P.
Proof.
  revert P. induction es as [|e es IH]; intros P.
  - simpl. unfold mounts. simpl. repeat split; lia.
  - rewrite run_cons, mounts_cons.
    destruct (IH (step P e)) as (-> & Hl & -> & ->).
    destruct (step_counters k P e) as (-> & Hl' & -> & ->).
    repeat split; lia.
Qed.

(** X4.  In every run of a page, the event bus is asked for once per mounted
    instance, the three dispatchers have always been bound equally often,
    and that number never exceeds the number of mounts: a dispatcher is
    bound only by a load that resolved, and each mount starts one load. *)
Theorem dispatchers_bound_together (es : list Event) :
  bus_requests (run process0 es) = mounts es ∧
  bound_count KTweet (run process0 es) = bound_count KLike (run process0 es) ∧
  bound_count KRetweet (run process0 es) = bound_count KLike (run process0 es) ∧
  bound_count KLike (run process0 es) + loading (run process0 es) ≤ mounts es.
Proof.
  destruct (run_counters KTweet process0 es) as (Hb & _ & Ht1 & Ht2).
  destruct (run_counters KRetweet process0 es) as (_ & _ & Hr1 & Hr2).
  destruct (run_counters KLike process0 es) as (_ & Hl & _ & _).
  change (bound_count KTweet process0) with 0 in *.
  change (bound_count KRetweet process0) with 0 in *.
  change (bound_count KLike process0) with 0 in *.
  simpl in Hb, Hl. repeat split; lia.
Qed.

End RouterMore.

(** * More on the mount controller *)

Section ControllerMore.
Import Widget.

Implicit Types (st : Instance) (s : Session) (p : Props) (sid : nat)
               (children : list Element) (c : Element) (ss : list Session).

(** *** What each part of a step does to the sessions *)

Lemma key_alter_at_pc (q : PC) sid ss :
  session_key <$> alter (at_pc q) sid ss = session_key <$> ss.
Proof.
  revert sid. induction ss as [|s ss IH]; intros [|sid]; csimpl; try done.
  by rewrite IH.
Qed.

Lemma lookup_key ss ss' (i : nat) s' :
  session_key <$> ss' = session_key <$> ss →
  ss' !! i = Some s' →
  ∃ s, ss !! i = Some s ∧ isCanceled s = isCanceled s' ∧ childEl s = childEl s'.
Proof.
  intros Hk Hs'.
  assert (Hl : (session_key <$> ss) !! i = Some (session_key s')).
  { by rewrite <- Hk, list_lookup_fmap, Hs'. }
  rewrite list_lookup_fmap in Hl.
  destruct (ss !! i) as [s|]; [|done].
  exists s. injection Hl as Hc He. done.
Qed.

Lemma key_length ss ss' :
  session_key <$> ss' = session_key <$> ss → length ss' = length ss.
Proof. intros Hk. by rewrite <- (length_fmap session_key ss'), Hk, length_fmap. Qed.

Lemma catch_keys sid (e : JSVal) st :
  session_key <$> sessions (catch sid e st) = session_key <$> sessions st ∧
  cleanup (catch sid e st) = cleanup st ∧
  next_el (catch sid e st) = next_el st.
Proof. unfold catch; simpl. by rewrite key_alter_at_pc. Qed.

Lemma after_twWidgetFactory_keys sid (o : Settled ThirdParty) st :
  session_key <$> sessions (loadWidget_after_twWidgetFactory sid o st)
    = session_key <$> sessions st ∧
  cleanup (loadWidget_after_twWidgetFactory sid o st) = cleanup st ∧
  next_el (loadWidget_after_twWidgetFactory sid o st) = next_el st.
Proof.
  unfold loadWidget_after_twWidgetFactory.
  destruct (sessions st !! sid) as [s|]; [|done].
  case_decide; [|done].
  destruct o as [wf|e]; [|apply catch_keys].
  destruct (cloneShallow (primaryArg (props s)) (heap st)) as [primary h1].
  destruct (cloneShallow (options (props s)) h1) as [opts h2].
  destruct (throws wf) as [e|].
  - unfold catch; simpl. by rewrite key_alter_at_pc.
  - simpl. by rewrite key_alter_at_pc.
Qed.

Lemma after_factoryCall_keys sid (o : Settled JSVal) st :
  session_key <$> sessions (loadWidget_after_factoryCall sid o st)
    = session_key <$> sessions st ∧
  cleanup (loadWidget_after_factoryCall sid o st) = cleanup st ∧
  next_el (loadWidget_after_factoryCall sid o st) = next_el st.
Proof.
  unfold loadWidget_after_factoryCall.
  destruct (sessions st !! sid) as [s|]; [|done].
  case_decide; [|done].
  destruct o as [resultMaybe|e]; [|apply catch_keys].
  destruct (negb (truthy resultMaybe) && negb (isCanceled s)); [apply catch_keys|].
  simpl. destruct (ref_current st); simpl; [|by rewrite key_alter_at_pc].
  destruct (isCanceled s); simpl; [by rewrite key_alter_at_pc|].
  destruct (onLoad (props s)); simpl; by rewrite key_alter_at_pc.
Qed.

(** What the continuation after the factory call does to the mount point:
    nothing, or the removal of the container of a canceled session. *)
Lemma after_factoryCall_ref sid (o : Settled JSVal) st :
  ref_current (loadWidget_after_factoryCall sid o st) = ref_current st ∨
  ∃ s children,
    sessions st !! sid = Some s ∧ isCanceled s = true ∧
    ref_current st = Some children ∧
    ref_current (loadWidget_after_factoryCall sid o st)
      = Some (remove (childEl s) children).
Proof.
  unfold loadWidget_after_factoryCall.
  destruct (sessions st !! sid) as [s|] eqn:Hs; [|by left].
  case_decide; [|by left].
  destruct o as [resultMaybe|e]; [|by left].
  destruct (negb (truthy resultMaybe) && negb (isCanceled s)); [by left|].
  simpl. destruct (ref_current st) as [children|] eqn:Href; simpl; [|by left].
  destruct (isCanceled s) eqn:Hc; simpl.
  - right. exists s, children. done.
  - left. destruct (onLoad (props s)); simpl; done.
Qed.

Lemma cleanup_sessions st :
  cleanup (useTwitterWidget_cleanup st) = None ∧
  sessions (useTwitterWidget_cleanup st) =
    match cleanup st with
    | Some i => alter cancel i (sessions st)
    | None => sessions st
    end.
Proof. unfold useTwitterWidget_cleanup. by destruct (cleanup st) eqn:E. Qed.

Lemma cleanup_childEl st (i : nat) s' :
  sessions (useTwitterWidget_cleanup st) !! i = Some s' →
  ∃ s, sessions st !! i = Some s ∧ childEl s = childEl s' ∧
       (isCanceled s' = false → isCanceled s = false ∧ cleanup st ≠ Some i).
Proof.
  destruct (cleanup_sessions st) as [_ ->].
  destruct (cleanup st) as [j|].
  - destruct (decide (j = i)) as [->|Hne].
    + rewrite list_lookup_alter, decide_True by done.
      destruct (sessions st !! i) as [s|]; simpl; [|done].
      intros [= <-]. exists s. simpl. split; [done|]. split; [done|]. done.
    + rewrite list_lookup_alter_ne by done. intros Hs. exists s'.
      repeat split; try done. congruence.
  - intros Hs. exists s'. repeat split; done.
Qed.

(** After the cleanup every session is canceled. *)
Lemma cleanup_cancels_all st (i : nat) s :
  live_ok st →
  sessions (useTwitterWidget_cleanup st) !! i = Some s → isCanceled s = true.
Proof.
  intros [Hlive _] Hs.
  destruct (cleanup_childEl st i s Hs) as (s0 & Hs0 & _ & Hc).
  destruct (isCanceled s) eqn:E; [done|].
  destruct (Hc eq_refl) as [Hc0 Hne]. by destruct Hne; apply (Hlive i s0).
Qed.

(** The effect on a mounted instance. *)
Lemma effect_mounted p st children :
  ref_current st = Some children →
  sessions (useTwitterWidget_effect p st)
    = (sessions st ++ [mkSession false p (next_el st) AwaitFactory])%list ∧
  cleanup (useTwitterWidget_effect p st) = Some (length (sessions st)) ∧
  next_el (useTwitterWidget_effect p st) = S (next_el st) ∧
  ref_current (useTwitterWidget_effect p st)
    = Some (appendChild
              (removeChildrenWithAttribute children childDivIdentifyingAttribute)
              (setAttribute childDivIdentifyingAttribute "yes"
                 (createElement (next_el st) "div"))) ∧
  heap (useTwitterWidget_effect p st) = heap st ∧
  error (useTwitterWidget_effect p st) = VNull ∧
  trace (useTwitterWidget_effect p st)
    = (trace st ++ [SetError VNull; TwWidgetFactory])%list.
Proof.
  intros Href. unfold useTwitterWidget_effect; simpl. rewrite Href.
  unfold loadWidget_start; simpl. repeat split. by rewrite <- app_assoc.
Qed.

Lemma effect_unmounted p st :
  ref_current st = None →
  sessions (useTwitterWidget_effect p st) = sessions st ∧
  cleanup (useTwitterWidget_effect p st) = None ∧
  next_el (useTwitterWidget_effect p st) = next_el st ∧
  ref_current (useTwitterWidget_effect p st) = None ∧
  trace (useTwitterWidget_effect p st) = (trace st ++ [SetError VNull])%list.
Proof.
  intros Href. unfold useTwitterWidget_effect; simpl. rewrite Href. done.
Qed.

(** *** The facts every reachable state has *)

Lemma ids_ok_keys (n0 : nat) st st' :
  ids_ok n0 st →
  session_key <$> sessions st' = session_key <$> sessions st →
  next_el st' = next_el st →
  ids_ok n0 st'.
Proof.
  intros [Hn Hid] Hk Hne. split.
  - by rewrite Hne, (key_length _ _ Hk).
  - intros i s' Hs'. destruct (lookup_key _ _ i s' Hk Hs') as (s & Hs & _ & <-).
    by apply Hid.
Qed.

Lemma ids_ok_cleanup (n0 : nat) st :
  ids_ok n0 st → ids_ok n0 (useTwitterWidget_cleanup st).
Proof.
  intros [Hn Hid].
  destruct (useTwitterWidget_cleanup_frame st) as (_ & _ & _ & Hne & _ & Hlen).
  split.
  - by rewrite Hne, Hlen.
  - intros i s' Hs'. destruct (cleanup_childEl st i s' Hs') as (s & Hs & <- & _).
    by apply Hid.
Qed.

Lemma ids_ok_effect (n0 : nat) p st :
  ids_ok n0 st → ids_ok n0 (useTwitterWidget_effect p st).
Proof.
  intros [Hn Hid]. destruct (ref_current st) as [children|] eqn:Href.
  - destruct (effect_mounted p st children Href) as (Hs & _ & Hne & _).
    split.
    + rewrite Hne, Hs, length_app. simpl. lia.
    + intros i s. rewrite Hs. intros Hi.
      apply lookup_app_Some in Hi as [Hi|[Hlen Hi]]; [by apply Hid|].
      destruct (i - length (sessions st)) as [|k] eqn:Ek; [|done].
      simpl in Hi. injection Hi as <-. simpl. lia.
  - destruct (effect_unmounted p st Href) as (Hs & _ & Hne & _).
    split; [by rewrite Hne, Hs|]. intros i s. rewrite Hs. apply Hid.
Qed.

Lemma step_ids_ok (n0 : nat) st (e : Event) :
  ids_ok n0 st → ids_ok n0 (step st e).
Proof.
  intros Hok. destruct e as [p| |sid o|sid o]; cbn [step].
  - by apply ids_ok_effect, ids_ok_cleanup.
  - apply (ids_ok_keys n0 (useTwitterWidget_cleanup st)); [|done..].
    by apply ids_ok_cleanup.
  - destruct (after_twWidgetFactory_keys sid o st) as (Hk & _ & Hne).
    by apply (ids_ok_keys n0 st).
  - destruct (after_factoryCall_keys sid o st) as (Hk & _ & Hne).
    by apply (ids_ok_keys n0 st).
Qed.

Lemma live_ok_keys st st' :
  live_ok st →
  session_key <$> sessions st' = session_key <$> sessions st →
  cleanup st' = cleanup st →
  live_ok st'.
Proof.
  intros [Hlive Hcur] Hk Hc. split.
  - intros i s' Hs' Hnc. rewrite Hc.
    destruct (lookup_key _ _ i s' Hk Hs') as (s & Hs & Hcs & _).
    apply (Hlive i s Hs). congruence.
  - intros i Hi. rewrite Hc in Hi. destruct (Hcur i Hi) as (s & Hs & Hnc).
    destruct (lookup_key _ _ i s (eq_sym Hk) Hs) as (s' & Hs' & Hcs & _).
    exists s'. split; [done|]. congruence.
Qed.

(** After the cleanup nothing is pending and no session is live. *)
Lemma live_ok_quiet st :
  cleanup st = None →
  (∀ (i : nat) s, sessions st !! i = Some s → isCanceled s = true) →
  live_ok st.
Proof.
  intros Hc Hall. split.
  - intros i s Hs Hnc. rewrite (Hall i s Hs) in Hnc. done.
  - intros i Hi. congruence.
Qed.

Lemma live_ok_effect p st :
  cleanup st = None →
  (∀ (i : nat) s, sessions st !! i = Some s → isCanceled s = true) →
  live_ok (useTwitterWidget_effect p st).
Proof.
  intros Hc Hall. destruct (ref_current st) as [children|] eqn:Href.
  - destruct (effect_mounted p st children Href) as (Hs & Hcl & _).
    split.
    + intros i s. rewrite Hs, Hcl. intros Hi Hnc.
      apply lookup_app_Some in Hi as [Hi|[Hlen Hi]].
      * rewrite (Hall i s Hi) in Hnc. done.
      * destruct (i - length (sessions st)) as [|k] eqn:Ek; [|done].
        f_equal. lia.
    + intros i. rewrite Hs, Hcl. intros [= <-].
      exists (mkSession false p (next_el st) AwaitFactory). split; [|done].
      rewrite lookup_app_r by lia. by rewrite Nat.sub_diag.
  - destruct (effect_unmounted p st Href) as (Hs & Hcl & _).
    apply live_ok_quiet; [done|]. by rewrite Hs.
Qed.

Lemma step_live_ok st (e : Event) :
  live_ok st → live_ok (step st e).
Proof.
  intros Hok. destruct e as [p| |sid o|sid o]; cbn [step].
  - apply live_ok_effect.
    + apply cleanup_sessions.
    + intros i s. by apply cleanup_cancels_all.
  - apply live_ok_quiet; simpl.
    + apply cleanup_sessions.
    + intros i s. by apply cleanup_cancels_all.
  - destruct (after_twWidgetFactory_keys sid o st) as (Hk & Hc & _).
    by apply (live_ok_keys st).
  - destruct (after_factoryCall_keys sid o st) as (Hk & Hc & _).
    by apply (live_ok_keys st).
Qed.

Lemma step_dom_ok (n0 : nat) st (e : Event) :
  session_ok n0 st → dom_ok n0 (step st e).
Proof.
  intros (Hids & Hlive & Hdom). destruct e as [p| |sid o|sid o]; cbn [step].
  - destruct (useTwitterWidget_cleanup_frame st) as (_ & Hr & _ & Hne & _ & Hlen).
    destruct (ref_current st) as [children|] eqn:Href.
    + destruct (effect_mounted p (useTwitterWidget_cleanup st) children Hr)
        as (_ & Hcl & _ & Hr' & _).
      intros children' c. rewrite Hr', Hcl. intros [= <-] Hc.
      apply elem_of_app in Hc as [Hc|Hc].
      * apply list_elem_of_filter in Hc as [Hun Hc].
        destruct (Hdom children c Href Hc) as [Hlt|[Ht _]]; [by left|congruence].
      * apply list_elem_of_singleton in Hc as ->. right.
        split; [apply new_child_is_tagged|].
        exists (length (sessions (useTwitterWidget_cleanup st))).
        split; [done|]. simpl. destruct Hids as [Hn _]. lia.
    + destruct (effect_unmounted p (useTwitterWidget_cleanup st) Hr)
        as (_ & _ & _ & Hr' & _).
      intros children' c. by rewrite Hr'.
  - intros children c. simpl. done.
  - intros children c. rewrite after_twWidgetFactory_ref.
    destruct (after_twWidgetFactory_keys sid o st) as (_ & -> & _).
    apply Hdom.
  - intros children' c.
    destruct (after_factoryCall_keys sid o st) as (_ & -> & _).
    destruct (after_factoryCall_ref sid o st)
      as [->|(s & children & _ & _ & Href & ->)]; [apply Hdom|].
    intros [= <-] Hc. apply list_elem_of_filter in Hc as [_ Hc].
    by apply (Hdom children).
Qed.

Lemma step_session_ok (n0 : nat) st (e : Event) :
  session_ok n0 st → session_ok n0 (step st e).
Proof.
  intros Hok. pose proof (step_dom_ok n0 st e Hok) as Hd.
  destruct Hok as (Hids & Hlive & _).
  split; [by apply step_ids_ok|]. split; [by apply step_live_ok|done].
Qed.

Lemma run_session_ok (n0 : nat) st (es : list Event) :
  session_ok n0 st → session_ok n0 (run st es).
Proof.
  revert st. induction es as [|e es IH]; intros st Hok; [done|].
  apply IH. by apply step_session_ok.
Qed.

Lemma run_ids_ok (n0 : nat) st (es : list Event) :
  ids_ok n0 st → ids_ok n0 (run st es).
Proof.
  revert st. induction es as [|e es IH]; intros st Hok; [done|].
  apply IH. by apply step_ids_ok.
Qed.

Lemma run_live_ok st (es : list Event) :
  live_ok st → live_ok (run st es).
Proof.
  revert st. induction es as [|e es IH]; intros st Hok; [done|].
  apply IH. by apply step_live_ok.
Qed.

Lemma initial_ids_live (r : option (list Element)) (h : Heap) (n0 : nat) :
  ids_ok n0 (initial r h n0) ∧ live_ok (initial r h n0).
Proof.
  split; [split|split]; simpl; try done; try lia.
Qed.

Lemma initial_session_ok (r : option (list Element)) (h : Heap) (n0 : nat) :
  (∀ children c, r = Some children → c ∈ children → el_id c < n0) →
  session_ok n0 (initial r h n0).
Proof.
  intros Hr. destruct (initial_ids_live r h n0) as [Hi Hl].
  split; [done|]. split; [done|].
  intros children c Href Hc. left. by apply (Hr children).
Qed.

(** *** Sessions *)

(** X6.  An instance has at most one session that is not canceled, and it is
    the one the pending cleanup refers to: every effect run cancels the
    session of the run before it starts its own. *)
Theorem one_live_session (r : option (list Element)) (h : Heap) (n0 : nat)
    (es : list Event) (i j : nat) s s' :
  sessions (run (initial r h n0) es) !! i = Some s →
  sessions (run (initial r h n0) es) !! j = Some s' →
  isCanceled s = false →
  isCanceled s' = false →
  i = j ∧ cleanup (run (initial r h n0) es) = Some i.
Proof.
  intros Hs Hs' Hc Hc'.
  destruct (run_live_ok (initial r h n0) es) as [Hlive _];
    [apply initial_ids_live|].
  pose proof (Hlive i s Hs Hc) as Hi.
  pose proof (Hlive j s' Hs' Hc') as Hj.
  split; [congruence|done].
Qed.

Lemma one_live_session_witness :
  2 = 2 ∧
  cleanup
    (run (initial (Some []) ∅ 0)
       [Commit (component_props Hashtag (VStr "a") VUndefined None);
        Commit (component_props Hashtag (VStr "b") VUndefined None);
        Commit (component_props Hashtag (VStr "c") VUndefined None)]) = Some 2.
Proof.
  apply (one_live_session (Some []) ∅ 0
           [Commit (component_props Hashtag (VStr "a") VUndefined None);
            Commit (component_props Hashtag (VStr "b") VUndefined None);
            Commit (component_props Hashtag (VStr "c") VUndefined None)]
           2 2
           (mkSession false (component_props Hashtag (VStr "c") VUndefined None)
              2 AwaitFactory)
           (mkSession false (component_props Hashtag (VStr "c") VUndefined None)
              2 AwaitFactory)); reflexivity.
Defined.

(** *** After the mount point is gone *)

Lemma invocations_app (t t' : list Effect) :
  invocations (t ++ t') = (invocations t ++ invocations t')%list.
Proof. apply filter_app. Qed.

Lemma catch_invocations sid (e : JSVal) st :
  invocations (trace (catch sid e st)) = invocations (trace st).
Proof.
  destruct (catch_frame sid e st) as (_ & _ & _ & ->).
  rewrite invocations_app. simpl. by rewrite app_nil_r.
Qed.

(** The continuation after [twWidgetFactory()] calls no callback. *)
Lemma after_twWidgetFactory_invocations sid (o : Settled ThirdParty) st :
  invocations (trace (loadWidget_after_twWidgetFactory sid o st))
    = invocations (trace st).
Proof.
  unfold loadWidget_after_twWidgetFactory.
  destruct (sessions st !! sid) as [s|]; [|done].
  case_decide; [|done].
  destruct o as [wf|e]; [|apply catch_invocations].
  destruct (cloneShallow (primaryArg (props s)) (heap st)) as [primary h1].
  destruct (cloneShallow (options (props s)) h1) as [opts h2].
  destruct (throws wf) as [e|].
  - rewrite catch_invocations. simpl. rewrite invocations_app. simpl.
    by rewrite app_nil_r.
  - simpl. rewrite invocations_app. simpl. by rewrite app_nil_r.
Qed.

Lemma step_unmounted st (e : Event) :
  ref_current st = None →
  ref_current (step st e) = None ∧
  invocations (trace (step st e)) = invocations (trace st).
Proof.
  intros Href. destruct e as [p| |sid o|sid o]; cbn [step].
  - destruct (useTwitterWidget_cleanup_frame st) as (_ & Hr & _ & _ & Ht & _).
    rewrite Href in Hr.
    destruct (effect_unmounted p (useTwitterWidget_cleanup st) Hr)
      as (_ & _ & _ & -> & ->).
    split; [done|]. rewrite invocations_app, Ht. simpl. by rewrite app_nil_r.
  - destruct (useTwitterWidget_cleanup_frame st) as (_ & _ & _ & _ & Ht & _).
    simpl. by rewrite Ht.
  - by rewrite after_twWidgetFactory_ref, after_twWidgetFactory_invocations.
  - split.
    + destruct (after_factoryCall_ref sid o st)
        as [->|(s & children & _ & _ & Hr & _)]; congruence.
    + unfold loadWidget_after_factoryCall.
      destruct (sessions st !! sid) as [s|]; [|done].
      case_decide; [|done].
      destruct o as [resultMaybe|e]; [|apply catch_invocations].
      destruct (negb (truthy resultMaybe) && negb (isCanceled s));
        [apply catch_invocations|].
      simpl. by rewrite Href.
Qed.

Lemma run_unmounted st (es : list Event) :
  ref_current st = None →
  ref_current (run st es) = None ∧
  invocations (trace (run st es)) = invocations (trace st).
Proof.
  revert st. induction es as [|e es IH]; intros st Href; [done|].
  destruct (step_unmounted st e Href) as [Hr Ht].
  destruct (IH (step st e) Hr) as [Hr' Ht'].
  split; [done|]. change (run st (e :: es)) with (run (step st e) es).
  by rewrite Ht', Ht.
Qed.

(** X7.  Once an instance has unmounted, the hook never calls [onLoad]
    again: whatever settles afterwards, and however the sessions that were
    in flight end, the calls of [onLoad] are those made before the unmount.
    (The callbacks that [useTwitterEvents] registered are no part of this:
    they stay in [HANDLERS].) *)
Theorem no_onLoad_after_unmount st (es : list Event) :
  invocations (trace (run (step st Unmount) es)) = invocations (trace st) ∧
  ref_current (run (step st Unmount) es) = None.
Proof.
  destruct (run_unmounted (step st Unmount) es) as [Hr Ht]; [done|].
  split; [|done]. rewrite Ht. simpl.
  destruct (useTwitterWidget_cleanup_frame st) as (_ & _ & _ & _ & -> & _).
  done.
Qed.

Lemma step_all_canceled st (e : Event) :
  ref_current st = None → cleanup st = None →
  (∀ (i : nat) s, sessions st !! i = Some s → isCanceled s = true) →
  cleanup (step st e) = None ∧
  (∀ (i : nat) s, sessions (step st e) !! i = Some s → isCanceled s = true).
Proof.
  intros Href Hcl Hall.
  assert (Hkeys : ∀ st',
    session_key <$> sessions st' = session_key <$> sessions st →
    ∀ (i : nat) s, sessions st' !! i = Some s → isCanceled s = true).
  { intros st' Hk i s' Hs'.
    destruct (lookup_key _ _ i s' Hk Hs') as (s & Hs & <- & _). by apply (Hall i). }
  destruct (cleanup_sessions st) as [Hc Hss]. rewrite Hcl in Hss.
  destruct e as [p| |sid o|sid o]; cbn [step].
  - destruct (useTwitterWidget_cleanup_frame st) as (_ & Hr & _).
    rewrite Href in Hr.
    destruct (effect_unmounted p (useTwitterWidget_cleanup st) Hr)
      as (-> & -> & _).
    split; [done|]. by rewrite Hss.
  - simpl. split; [done|]. by rewrite Hss.
  - destruct (after_twWidgetFactory_keys sid o st) as (Hk & -> & _).
    split; [done|]. by apply Hkeys.
  - destruct (after_factoryCall_keys sid o st) as (Hk & -> & _).
    split; [done|]. by apply Hkeys.
Qed.

(** X8.  From the unmount on, every session of the instance is canceled and
    stays canceled, and the mount point is gone for good: no later event
    starts a session. *)
Theorem unmount_cancels_all (r : option (list Element)) (h : Heap) (n0 : nat)
    (es : list Event) (i : nat) s :
  Unmount ∈ es →
  sessions (run (initial r h n0) es) !! i = Some s →
  isCanceled s = true ∧
  ref_current (run (initial r h n0) es) = None ∧
  cleanup (run (initial r h n0) es) = None.
Proof.
  intros Hin Hs.
  apply list_elem_of_split in Hin as (es1 & es2 & ->).
  unfold run in *. rewrite foldl_app in *. simpl in *.
  fold (run (initial r h n0) es1) in *.
  set (st1 := run (initial r h n0) es1) in *.
  assert (Hlive : live_ok st1) by (apply run_live_ok, initial_ids_live).
  assert (Hgen : ∀ (es : list Event) st,
    ref_current st = None → cleanup st = None →
    (∀ (i : nat) s, sessions st !! i = Some s → isCanceled s = true) →
    ref_current (foldl step st es) = None ∧
    cleanup (foldl step st es) = None ∧
    (∀ (i : nat) s, sessions (foldl step st es) !! i = Some s → isCanceled s = true)).
  { clear. induction es as [|e es IH]; intros st Href Hcl Hall; [done|].
    simpl. destruct (step_all_canceled st e Href Hcl Hall) as [Hcl' Hall'].
    destruct (step_unmounted st e Href) as [Href' _].
    by apply IH. }
  destruct (Hgen es2 (set_ref None (useTwitterWidget_cleanup st1)))
    as (Href & Hcl & Hall).
  - done.
  - simpl. apply cleanup_sessions.
  - intros j s0. simpl. by apply cleanup_cancels_all.
  - split; [by apply (Hall i)|done].
Qed.

Lemma unmount_cancels_all_witness :
  isCanceled
    (at_pc AwaitWidget
       (cancel (mkSession false (component_props Share (VStr "u") VUndefined (Some 1))
                  0 AwaitFactory))) = true.
Proof.
  apply (unmount_cancels_all (Some []) ∅ 0
           [Commit (component_props Share (VStr "u") VUndefined (Some 1));
            Unmount;
            FactoryLoaded 0 (Fulfilled (mkThirdParty [] None))]
           0).
  - set_solver.
  - reflexivity.
Defined.

(** *** Canceled sessions and the DOM *)

(** The container of a canceled session is no child of the mount point. *)
Lemma canceled_container_detached (n0 : nat) st sid s children c :
  session_ok n0 st →
  sessions st !! sid = Some s →
  isCanceled s = true →
  ref_current st = Some children →
  c ∈ children →
  el_id c ≠ childEl s.
Proof.
  intros ([_ Hid] & [_ Hcur] & Hdom) Hs Hc Href Hin.
  rewrite (Hid sid s Hs).
  destruct (Hdom children c Href Hin) as [Hlt|(_ & i & Hi & ->)]; [lia|].
  destruct (Hcur i Hi) as (s' & Hs' & Hc').
  intros Heq. assert (i = sid) as -> by lia. congruence.
Qed.


Lemma reachable_session_ok (foreign : list Element) (h : Heap) (n0 : nat)
    (es : list Event) :
  Forall (λ c, el_id c < n0) foreign →
  session_ok n0 (run (initial (Some foreign) h n0) es).
Proof.
  intros Hf. apply run_session_ok, initial_session_ok.
  intros children c [= <-] Hc. by apply (proj1 (Forall_forall _ _) Hf).
Qed.



(** X10.  Cancellation is not looked at between the two awaits: when
    [twWidgetFactory()] resolves for a session that is already canceled, the
    third-party factory function is called all the same, on a container that
    is no longer a child of the mount point. *)
Theorem canceled_session_still_calls_factory (foreign : list Element) (h : Heap)
    (n0 : nat) (es : list Event) (sid : nat) s (wf : ThirdParty) :
  Forall (λ c, el_id c < n0) foreign →
  sessions (run (initial (Some foreign) h n0) es) !! sid = Some s →
  pc s = AwaitFactory →
  isCanceled s = true →
  (∃ primary opts,
      FactoryCall (factoryFunctionName (props s)) primary (childEl s) opts
        ∈ trace (step (run (initial (Some foreign) h n0) es)
                   (FactoryLoaded sid (Fulfilled wf)))) ∧
  (∀ children c,
      ref_current (run (initial (Some foreign) h n0) es) = Some children →
      c ∈ children → el_id c ≠ childEl s).
Proof.
  intros Hf Hs Hpc Hc.
  pose proof (reachable_session_ok foreign h n0 es Hf) as Hok.
  set (st := run (initial (Some foreign) h n0) es) in *.
  split.
  - destruct (after_twWidgetFactory_call sid s wf st Hs Hpc) as [_ Hcall].
    eauto.
  - intros children c Href Hin.
    by apply (canceled_container_detached n0 st sid s children).
Qed.

Lemma canceled_session_still_calls_factory_witness :
  ∃ primary opts,
    FactoryCall "createTimeline" primary 0 opts
      ∈ trace
          (step
             (run (initial (Some []) ∅ 0)
                [Commit (component_props Timeline (VStr "alice") VUndefined None);
                 Commit (component_props Timeline (VStr "bob") VUndefined None)])
             (FactoryLoaded 0 (Fulfilled (mkThirdParty [] None)))).
Proof.
  apply (canceled_session_still_calls_factory [] ∅ 0
           [Commit (component_props Timeline (VStr "alice") VUndefined None);
            Commit (component_props Timeline (VStr "bob") VUndefined None)]
           0
           (mkSession true (component_props Timeline (VStr "alice") VUndefined None)
              0 AwaitFactory)
           (mkThirdParty [] None)).
  - constructor.
  - reflexivity.
  - reflexivity.
  - reflexivity.
Defined.

(** *** Load failure, and the container a factory draws into *)








(** *** The error state and what is rendered *)

(** X13.  What a component renders for the error state.  After an effect
    run the error state is [null], whatever it was, and the child expression
    is [null] whether or not [renderError] is given.  After a rejected
    factory call the rejection is the error state; [renderError] is called
    with it when it is truthy, and a falsy rejection (say, a promise rejected
    without a reason) is logged but renders as itself, without
    [renderError]. *)
Theorem rendered_error st p sid s (e : JSVal) :
  sessions st !! sid = Some s →
  pc s = AwaitWidget →
  (∀ (M : Type) (renderError : option (JSVal → M)),
      error_child (error (step st (Commit p))) renderError = ChildValue VNull) ∧
  (∀ (M : Type) (renderError : JSVal → M),
      error_child (error (step st (WidgetSettled sid (Rejected e)))) (Some renderError)
        = if truthy e then ChildMarkup (renderError e) else ChildValue e) ∧
  ConsoleError e ∈ trace (step st (WidgetSettled sid (Rejected e))).
Proof.
  intros Hs Hpc. split; [|split].
  - intros M renderError. cbn [step].
    assert (error (useTwitterWidget_effect p (useTwitterWidget_cleanup st)) = VNull)
      as ->; [|done].
    unfold useTwitterWidget_effect; simpl.
    destruct (ref_current (useTwitterWidget_cleanup st)); done.
  - intros M renderError.
    destruct (rejection_sets_error st sid s e Hs Hpc) as [-> _]. done.
  - destruct (rejection_sets_error st sid s e Hs Hpc) as [_ ->]. set_solver.
Qed.

Lemma rendered_error_witness :
  error_child
    (error
       (step
          (run (initial (Some []) ∅ 0)
             [Commit (component_props Follow (VStr "alice") VUndefined None);
              FactoryLoaded 0 (Fulfilled (mkThirdParty [] None))])
          (WidgetSettled 0 (Rejected VUndefined))))
    (Some (λ _ : JSVal, "could not load"))
  = if truthy VUndefined then ChildMarkup "could not load" else ChildValue VUndefined.
Proof.
  destruct (rendered_error
              (run (initial (Some []) ∅ 0)
                 [Commit (component_props Follow (VStr "alice") VUndefined None);
                  FactoryLoaded 0 (Fulfilled (mkThirdParty [] None))])
              (component_props Follow (VStr "alice") VUndefined None)
              0
              (mkSession false (component_props Follow (VStr "alice") VUndefined None)
                 0 AwaitWidget)
              VUndefined eq_refl eq_refl) as (_ & Hw & _).
  exact (Hw string (λ _ : JSVal, "could not load")).
Defined.

(** X14.  The error state never changes silently.  A step either leaves it
    as it is, or is an effect run that resets it to [null], or ends with
    [console.error] and [setError] of the same value, which is the new error
    state. *)
Theorem error_changes_are_logged st (ev : Event) :
  error (step st ev) = error st ∨
  (∃ p, ev = Commit p ∧ error (step st ev) = VNull) ∨
  (∃ t, trace (step st ev)
          = (trace st ++ t ++ [ConsoleError (error (step st ev));
                               SetError (error (step st ev))])%list).
Proof.
  destruct ev as [p| |sid o|sid o]; cbn [step].
  - right. left. exists p. split; [done|].
    unfold useTwitterWidget_effect; simpl.
    destruct (ref_current (useTwitterWidget_cleanup st)); done.
  - left. simpl. by destruct (useTwitterWidget_cleanup_frame st) as (-> & _).
  - unfold loadWidget_after_twWidgetFactory.
    destruct (sessions st !! sid) as [s|]; [|by left].
    case_decide; [|by left].
    destruct o as [wf|e].
    + destruct (cloneShallow (primaryArg (props s)) (heap st)) as [primary h1].
      destruct (cloneShallow (options (props s)) h1) as [opts h2].
      destruct (throws wf) as [e|]; [|by left].
      right. right.
      exists [FactoryCall (factoryFunctionName (props s)) primary (childEl s) opts].
      unfold catch; simpl. by rewrite <- !app_assoc.
    + right. right. exists []. unfold catch; simpl. by rewrite <- !app_assoc.
  - unfold loadWidget_after_factoryCall.
    destruct (sessions st !! sid) as [s|]; [|by left].
    case_decide; [|by left].
    destruct o as [resultMaybe|e].
    + destruct (negb (truthy resultMaybe) && negb (isCanceled s)).
      * right. right. exists []. unfold catch; simpl. by rewrite <- !app_assoc.
      * left. simpl. destruct (ref_current st); [|done].
        destruct (isCanceled s); [done|]. by destruct (onLoad (props s)).
    + right. right. exists []. unfold catch; simpl. by rewrite <- !app_assoc.
Qed.

End ControllerMore.

(** * The [Tweet] component *)

Section TweetComponent.
Import Widget Events Components.



End TweetComponent.
